(** * Phrase location and highlighting in the PDF viewer (src/src/App.jsx)

    A shallow embedding of [App.jsx]: the phrase-location engine
    ([findPhrase], [findMatchingTextBoxes], [calculateBoundingRect]), the
    page index built by [extractTextContent] and [renderPDFPages], the load
    path ([loadAndRenderPDF]), the click handler and the highlight slot
    ([clearHighlights], [createHighlight]).

    Modelling conventions.
    - A JavaScript string is the list of its UTF-16 code units.
    - What the code takes from the JavaScript platform is a parameter, the
      class [Platform]: the numbers with [Math.min], [Math.max], [+], [-],
      [Infinity] and the numeric order, and [String.prototype.toLowerCase].
      The classes [NumberLaws] and [StringLaws] list the facts about them
      that the proofs use, each of which holds of IEEE 754 doubles and of
      the Unicode lowercase mapping.  Theorems are stated for every
      platform; [refPlatform] is an executable one (integers extended with
      the infinities and NaN; lowercase mapping of ASCII and of U+0130),
      on which the sample pages are evaluated.
    - Page numbers are 1-based, hence [positive]; the truthiness test
      [config.pageHint ? ... : ...] is then the presence of the hint.
    - [console.log] calls are dropped. *)

From Stdlib Require Import ZArith NArith Ascii String Lia.
From stdpp Require Import base list gmap sorting.

Local Open Scope Z_scope.

(** ** JavaScript strings *)

Abbreviation jsstring := (list N).

(** A string literal of the source; all of them are ASCII, one code unit
    per character. *)
Definition js (s : string) : jsstring :=
  map N_of_ascii (list_ascii_of_string s).

(** [s.startsWith(t)], the test [indexOf] makes at each position. *)
Fixpoint startsWith (s t : jsstring) {struct t} : bool :=
  match t, s with
  | [], _ => true
  | _ :: _, [] => false
  | c :: t', d :: s' => if N.eqb c d then startsWith s' t' else false
  end.

Fixpoint indexOfFrom (s t : jsstring) (k : nat) : Z :=
  if startsWith s t then Z.of_nat k
  else match s with
       | [] => -1
       | _ :: s' => indexOfFrom s' t (S k)
       end.

(** [s.indexOf(t)]: the first position of [t] in [s], or [-1]. *)
Definition indexOf (s t : jsstring) : Z := indexOfFrom s t 0.

(** [s.includes(t)] *)
Definition includes (s t : jsstring) : bool := negb (indexOf s t =? -1).

(** [s.substring(n)] for [n >= 0]: the string without its first [n]
    code units, empty when [n] exceeds the length. *)
Definition substring (n : nat) (s : jsstring) : jsstring := drop n s.

(** [l.join(sep)] *)
Fixpoint join (sep : jsstring) (l : list jsstring) : jsstring :=
  match l with
  | [] => []
  | [x] => x
  | x :: rest => x ++ sep ++ join sep rest
  end.

(** ** The JavaScript platform *)

(** Numbers and the lowercase mapping, as the code uses them.  [num_le] is
    the numeric order [<=], which no NaN satisfies; [num_finite] holds of
    the numbers other than NaN and the infinities. *)
Class Platform := {
  number : Type;
  Infinity : number;
  NegInfinity : number;
  num_zero : number;
  Math_min : number → number → number;
  Math_max : number → number → number;
  num_add : number → number → number;
  num_sub : number → number → number;
  num_le : number → number → Prop;
  num_finite : number → Prop;
  toLowerCase : jsstring → jsstring
}.

(** Facts about doubles: [Math.min] and [Math.max] are commutative and
    associative, answer with one of their arguments and bound both when
    neither is NaN; [Infinity] and [-Infinity] are their neutral elements;
    rounding is monotone, so that adding a non-negative number to a finite
    one does not go below it, and subtracting a finite number from one that
    is not smaller does not go below zero. *)
Class NumberLaws (P : Platform) : Prop := {
  min_infinity x : Math_min Infinity x = x;
  max_neg_infinity x : Math_max NegInfinity x = x;
  min_comm x y : Math_min x y = Math_min y x;
  min_assoc x y z : Math_min (Math_min x y) z = Math_min x (Math_min y z);
  max_comm x y : Math_max x y = Math_max y x;
  max_assoc x y z : Math_max (Math_max x y) z = Math_max x (Math_max y z);
  min_cases x y : Math_min x y = x ∨ Math_min x y = y;
  max_cases x y : Math_max x y = x ∨ Math_max x y = y;
  min_le_l x y : num_le x x → num_le y y → num_le (Math_min x y) x;
  max_le_l x y : num_le x x → num_le y y → num_le x (Math_max x y);
  le_trans x y z : num_le x y → num_le y z → num_le x z;
  finite_le x : num_finite x → num_le x x;
  add_number x y : num_finite x → num_finite y →
                   num_le (num_add x y) (num_add x y);
  add_nonneg x w : num_finite x → num_le num_zero w → num_le x (num_add x w);
  sub_nonneg x y : num_finite x → num_le x y → num_le num_zero (num_sub y x)
}.

(** Code units on which the lowercase mapping is spelled out below: ASCII,
    U+0130 (capital I with dot above) and U+0307 (combining dot above). *)
Definition basicUnit (u : N) : bool :=
  ((u <? 128) || (u =? 304) || (u =? 775))%N.

Definition lowerUnit (u : N) : jsstring :=
  if ((65 <=? u) && (u <=? 90))%N then [(u + 32)%N]
  else if (u =? 304)%N then [105%N; 775%N]
  else [u].

(** The Unicode lowercase mapping on strings of such code units: A-Z go to
    a-z, U+0130 goes to the two units of "i" followed by U+0307, the rest
    stays. *)
Definition basicLower (s : jsstring) : jsstring := concat (map lowerUnit s).

(** Facts about [toLowerCase]: on strings of the code units above it is
    [basicLower]; and since a space is neither cased nor case-ignorable,
    lowercasing strings joined by single spaces is lowercasing each. *)
Class StringLaws (P : Platform) : Prop := {
  lower_basic s : forallb basicUnit s = true → toLowerCase s = basicLower s;
  lower_join l :
    toLowerCase (join (js " ") l) = join (js " ") (map toLowerCase l)
}.

(** *** An executable platform *)

Inductive refnum := RNaN | RNegInf | RFin (z : Z) | RInf.

Definition ref_min (a b : refnum) : refnum :=
  match a, b with
  | RNaN, _ | _, RNaN => RNaN
  | RNegInf, _ | _, RNegInf => RNegInf
  | RInf, x | x, RInf => x
  | RFin x, RFin y => RFin (Z.min x y)
  end.

Definition ref_max (a b : refnum) : refnum :=
  match a, b with
  | RNaN, _ | _, RNaN => RNaN
  | RInf, _ | _, RInf => RInf
  | RNegInf, x | x, RNegInf => x
  | RFin x, RFin y => RFin (Z.max x y)
  end.

Definition ref_add (a b : refnum) : refnum :=
  match a, b with
  | RNaN, _ | _, RNaN => RNaN
  | RInf, RNegInf | RNegInf, RInf => RNaN
  | RInf, _ | _, RInf => RInf
  | RNegInf, _ | _, RNegInf => RNegInf
  | RFin x, RFin y => RFin (x + y)
  end.

Definition ref_sub (a b : refnum) : refnum :=
  match a, b with
  | RNaN, _ | _, RNaN => RNaN
  | RInf, RInf | RNegInf, RNegInf => RNaN
  | RInf, _ | _, RNegInf => RInf
  | RNegInf, _ | _, RInf => RNegInf
  | RFin x, RFin y => RFin (x - y)
  end.

Definition ref_le (a b : refnum) : Prop :=
  match a, b with
  | RNaN, _ | _, RNaN => False
  | RNegInf, _ | _, RInf => True
  | RFin x, RFin y => x <= y
  | _, _ => False
  end.

Definition ref_finite (a : refnum) : Prop :=
  match a with RFin _ => True | _ => False end.

Definition refPlatform : Platform :=
  {| number := refnum;
     Infinity := RInf;
     NegInfinity := RNegInf;
     num_zero := RFin 0;
     Math_min := ref_min;
     Math_max := ref_max;
     num_add := ref_add;
     num_sub := ref_sub;
     num_le := ref_le;
     num_finite := ref_finite;
     toLowerCase := basicLower |}.

(** ** Data model *)

(** The text boxes pushed by [extractTextContent]. *)
Module TextBox.
Record t `{Platform} := mk {
  str : jsstring;
  left : number;
  top : number;
  width : number;
  height : number;
  pageNumber : positive
}.
Arguments mk {_} _ _ _ _ _ _.
End TextBox.

Module Rect.
Record t `{Platform} := mk {
  left : number;
  top : number;
  width : number;
  height : number
}.
Arguments mk {_} _ _ _ _.
End Rect.

Module MatchResult.
Record t `{Platform} := mk { page : positive; rect : Rect.t }.
Arguments mk {_} _ _.
End MatchResult.

(** An entry of [SEARCH_PHRASES]. *)
Module PhraseSpec.
Record t := mk {
  canonical : jsstring;
  variations : list jsstring;
  pageHint : option positive
}.
End PhraseSpec.

Module Highlight.
Record t `{Platform} := mk { pageNumber : positive; rect : Rect.t }.
Arguments mk {_} _ _.
End Highlight.

(** An item of [page.getTextContent()], with the numbers the code derives
    from it through PDF.js and the measuring canvas: [x] and [y] are
    entries 4 and 5 of the transformed matrix, [fontHeight] the
    [Math.hypot] of its entries 1 and 0, [measuredWidth] the width that
    [measureText] reports.  [str] is [None] for an item without string. *)
Module TextItem.
Record t `{Platform} := mk {
  str : option jsstring;
  x : number;
  y : number;
  fontHeight : number;
  measuredWidth : number
}.
Arguments mk {_} _ _ _ _ _.
End TextItem.

(** The object literal passed to [updateState]: a field is [None] when
    the literal does not mention it. *)
Module Updates.
Record t `{Platform} := mk {
  pdfjsLoaded : option bool;
  pdfDoc : option (option nat);
  loading : option bool;
  error : option (option jsstring);
  currentHighlight : option (option Highlight.t)
}.
Arguments mk {_} _ _ _ _ _.
End Updates.

#[global] Instance TextBox_inhabited `{Platform} : Inhabited TextBox.t :=
  populate (TextBox.mk [] num_zero num_zero num_zero num_zero 1%positive).

(** [pageTextBoxesRef.current]: an object keyed by page number. *)
Abbreviation PageIndex := (gmap positive (list TextBox.t)).

Section Model.
Context `{P : Platform}.

(** ** findMatchingTextBoxes *)

(** The loop variables [currentText] and [currentBoxes]. *)
Record Window := mkWindow {
  currentText : jsstring;
  currentBoxes : list TextBox.t
}.

Definition emptyWindow : Window := mkWindow [] [].

(** Lines 295-296: append the lowercased text, push the box. *)
Definition push (b : TextBox.t) (w : Window) : Window :=
  mkWindow (currentText w ++ toLowerCase (TextBox.str b))
           (currentBoxes w ++ [b]).

(** [Math.max(0, i - 10)] *)
Definition trimIndex (i : nat) : nat := Z.to_nat (Z.max 0 (Z.of_nat i - 10)).

(** Lines 303-306: the sliding-window step taken at index [i]. *)
Definition slide (boxes : list TextBox.t) (searchText : jsstring)
    (i : nat) (w : Window) : Window :=
  if (length searchText * 3 <? length (currentText w))%nat then
    mkWindow
      (substring (length (TextBox.str (boxes !!! trimIndex i))) (currentText w))
      (drop 1 (currentBoxes w))
  else w.

(** One turn of the [for] loop at index [i] on box [b = boxes[i]]. *)
Inductive Turn := Return (run : list TextBox.t) | Next (w : Window).

Definition iteration (boxes : list TextBox.t) (searchText : jsstring)
    (i : nat) (b : TextBox.t) (w : Window) : Turn :=
  let w1 := push b w in
  if includes (currentText w1) searchText then Return (currentBoxes w1)
  else Next (slide boxes searchText i w1).

(** The loop from index [i] on, [rest] being [boxes[i..]]. *)
Fixpoint scanFrom (boxes : list TextBox.t) (searchText : jsstring)
    (rest : list TextBox.t) (i : nat) (w : Window) : list TextBox.t :=
  match rest with
  | [] => []
  | b :: rest' =>
      match iteration boxes searchText i b w with
      | Return run => run
      | Next w' => scanFrom boxes searchText rest' (S i) w'
      end
  end.

Definition findMatchingTextBoxes (boxes : list TextBox.t)
    (searchText : jsstring) : list TextBox.t :=
  scanFrom boxes searchText boxes 0 emptyWindow.

(** The loop variables at the head of turn [i + k], when the loop started
    at the head of turn [i] in window [w] gets that far: [None] once it
    has returned or run past the last box. *)
Fixpoint windowFrom (boxes : list TextBox.t) (searchText : jsstring)
    (rest : list TextBox.t) (i : nat) (w : Window) (k : nat) {struct k}
    : option Window :=
  match k with
  | O => Some w
  | S k' =>
      match rest with
      | [] => None
      | b :: rest' =>
          match iteration boxes searchText i b w with
          | Return _ => None
          | Next w' => windowFrom boxes searchText rest' (S i) w' k'
          end
      end
  end.

Definition windowAt (boxes : list TextBox.t) (searchText : jsstring)
    (k : nat) : option Window :=
  windowFrom boxes searchText boxes 0 emptyWindow k.


(** ** calculateBoundingRect *)

(** The four accumulators [minLeft], [minTop], [maxRight], [maxBottom]. *)
Record Extent := mkExtent {
  minLeft : number;
  minTop : number;
  maxRight : number;
  maxBottom : number
}.

(** The body of the [forEach] callback. *)
Definition extend (e : Extent) (box : TextBox.t) : Extent :=
  mkExtent
    (Math_min (minLeft e) (TextBox.left box))
    (Math_min (minTop e) (TextBox.top box))
    (Math_max (maxRight e) (num_add (TextBox.left box) (TextBox.width box)))
    (Math_max (maxBottom e) (num_add (TextBox.top box) (TextBox.height box))).

Definition calculateBoundingRect (boxes : list TextBox.t) : Rect.t :=
  if (length boxes =? 0)%nat then Rect.mk num_zero num_zero num_zero num_zero
  else
    let e := foldl extend (mkExtent Infinity Infinity NegInfinity NegInfinity)
                   boxes in
    Rect.mk (minLeft e) (minTop e)
            (num_sub (maxRight e) (minLeft e))
            (num_sub (maxBottom e) (minTop e)).

(** ** findPhrase *)

(** [Object.keys(pages).map(p => parseInt(p))]: integer keys of an object
    are enumerated in ascending numeric order. *)
Definition Object_keys (pages : PageIndex) : list positive :=
  merge_sort Pos.le (elements (dom pages)).

(** Line 263: [boxes.map(box => box.str).join(' ').toLowerCase()]. *)
Definition pageTextOf (boxes : list TextBox.t) : jsstring :=
  toLowerCase (join (js " ") (map TextBox.str boxes)).

(** Lines 266-281: the loop over [config.variations] on one page. *)
Fixpoint tryVariations (boxes : list TextBox.t) (pageText : jsstring)
    (pageNum : positive) (variations : list jsstring)
    : option MatchResult.t :=
  match variations with
  | [] => None
  | variation :: rest =>
      let normalizedVariation := toLowerCase variation in
      let index := indexOf pageText normalizedVariation in
      if negb (index =? -1) then
        let matchingBoxes := findMatchingTextBoxes boxes normalizedVariation in
        if (0 <? length matchingBoxes)%nat then
          Some (MatchResult.mk pageNum (calculateBoundingRect matchingBoxes))
        else tryVariations boxes pageText pageNum rest
      else tryVariations boxes pageText pageNum rest
  end.

(** Lines 256-282: the loop over [pagesToSearch]. *)
Fixpoint searchPages (pages : PageIndex) (variations : list jsstring)
    (pagesToSearch : list positive) : option MatchResult.t :=
  match pagesToSearch with
  | [] => None
  | pageNum :: rest =>
      match pages !! pageNum with
      | None => searchPages pages variations rest
      | Some boxes =>
          if (length boxes =? 0)%nat then searchPages pages variations rest
          else
            match tryVariations boxes (pageTextOf boxes) pageNum variations with
            | Some found => Some found
            | None => searchPages pages variations rest
            end
      end
  end.

(** Line 252. *)
Definition pagesToSearch (config : PhraseSpec.t) (pages : PageIndex)
    : list positive :=
  match PhraseSpec.pageHint config with
  | Some hint => [hint]
  | None => Object_keys pages
  end.

(** [findPhrase(referenceNumber)], with the configuration object and the
    page index it reads passed explicitly; [null] is [None]. *)
Definition findPhrase (SEARCH_PHRASES : gmap N PhraseSpec.t)
    (pages : PageIndex) (referenceNumber : N) : option MatchResult.t :=
  match SEARCH_PHRASES !! referenceNumber with
  | None => None
  | Some config =>
      searchPages pages (PhraseSpec.variations config)
                  (pagesToSearch config pages)
  end.

(** The configuration shipped in [App.jsx]. *)
Definition ebitdaSpec : PhraseSpec.t :=
  PhraseSpec.mk (js "EBITDA of USD 2.3 bn")
    [js "ebitda of usd 2.3 bn"; js "ebitda of usd 2.3bn";
     js "ebitda usd 2.3 bn"; js "ebitda 2.3 bn"; js "ebitda of 2.3 bn";
     js "2.3 bn"]
    (Some 3%positive).

Definition oceanSpec : PhraseSpec.t :=
  PhraseSpec.mk (js "Ocean revenue increased by 2.4%")
    [js "ocean revenue increased by 2.4%"; js "revenue increased by 2.4%";
     js "ocean revenue increased"; js "increased by 2.4%"; js "2.4%"]
    (Some 5%positive).

Definition gainSpec : PhraseSpec.t :=
  PhraseSpec.mk (js "Gain on sale of non-current assets")
    [js "gain on sale of non-current assets"; js "gain on sale";
     js "non-current assets"; js "sale of assets"; js "25 208"]
    (Some 15%positive).

Definition SEARCH_PHRASES : gmap N PhraseSpec.t :=
  <[1%N := ebitdaSpec]> (<[2%N := oceanSpec]> (<[3%N := gainSpec]> ∅)).

(** ** Component state, the DOM, and the highlight operations *)

(** The object held by [useState]; [pdfDoc] is kept by its page count. *)
Record AppState := mkState {
  pdfjsLoaded : bool;
  pdfDoc : option nat;
  loading : bool;
  error : option jsstring;
  currentHighlight : option Highlight.t
}.

(** [setState(prev => ({ ...prev, ...updates }))] *)
Definition updateState (updates : Updates.t) (prev : AppState) : AppState :=
  mkState
    (default (pdfjsLoaded prev) (Updates.pdfjsLoaded updates))
    (default (pdfDoc prev) (Updates.pdfDoc updates))
    (default (loading prev) (Updates.loading updates))
    (default (error prev) (Updates.error updates))
    (default (currentHighlight prev) (Updates.currentHighlight updates)).

(** The part of the document the highlight code touches: the page
    containers by their [data-page-number], and the [.highlight] elements
    by the container they hang in and the rectangle of their style. *)
Record Dom := mkDom {
  pageContainers : list positive;
  highlights : list (positive * Rect.t)
}.

Record World := mkWorld { state : AppState; dom : Dom }.

Definition initialWorld : World :=
  mkWorld (mkState false None true None None) (mkDom [] []).

Definition clearHighlights (w : World) : World :=
  mkWorld
    (updateState
       (Updates.mk None None None None (Some None)) (state w))
    (mkDom (pageContainers (dom w)) []).

(** [createHighlight(pageNumber, rect)]: the returned flag and the world
    it leaves. *)
Definition createHighlight (pageNumber : positive) (rect : Rect.t)
    (w : World) : bool * World :=
  let w1 := clearHighlights w in
  if bool_decide (pageNumber ∈ pageContainers (dom w1)) then
    (true,
     mkWorld
       (updateState
          (Updates.mk None None None None
             (Some (Some (Highlight.mk pageNumber rect))))
          (state w1))
       (mkDom (pageContainers (dom w1))
              (highlights (dom w1) ++ [(pageNumber, rect)])))
  else (false, w1).

(** Everything in [App.jsx] that writes the component state or the
    viewer's children. *)
Inductive Event :=
  | ScriptLoaded                      (* line 76 *)
  | ScriptFailed                      (* line 77 *)
  | LoadStarted                       (* line 92 *)
  | DocumentLoaded (numPages : nat)   (* lines 107-110 *)
  | PageAppended (pageNum : positive) (* line 158 *)
  | LoadFinished                      (* line 113 *)
  | LoadFailed (message : jsstring)   (* lines 117-120 *)
  | ClearHighlights                   (* line 212 *)
  | CreateHighlight (pageNumber : positive) (rect : Rect.t). (* line 217 *)

Definition handle (ev : Event) (w : World) : World :=
  match ev with
  | ScriptLoaded =>
      mkWorld (updateState
                 (Updates.mk (Some true) None None None None) (state w))
              (dom w)
  | ScriptFailed =>
      mkWorld (updateState
                 (Updates.mk None None None
                    (Some (Some (js "Failed to load PDF.js library"))) None)
                 (state w))
              (dom w)
  | LoadStarted =>
      mkWorld (updateState
                 (Updates.mk None None (Some true) (Some None) None) (state w))
              (dom w)
  | DocumentLoaded n =>
      mkWorld (updateState
                 (Updates.mk None (Some (Some n)) None None None) (state w))
              (mkDom [] [])
  | PageAppended p =>
      mkWorld (state w)
              (mkDom (pageContainers (dom w) ++ [p]) (highlights (dom w)))
  | LoadFinished =>
      mkWorld (updateState
                 (Updates.mk None None (Some false) None None) (state w))
              (dom w)
  | LoadFailed msg =>
      mkWorld (updateState
                 (Updates.mk None None (Some false) (Some (Some msg)) None)
                 (state w))
              (dom w)
  | ClearHighlights => clearHighlights w
  | CreateHighlight p r => snd (createHighlight p r w)
  end.

Definition isHighlightEvent (ev : Event) : bool :=
  match ev with
  | ClearHighlights | CreateHighlight _ _ => true
  | _ => false
  end.


(** ** Text extraction, page rendering and the click handler *)

(** Lines 183-190: the [textBox] literal; [item.str || ''] is the empty
    string for a missing (or empty) string. *)
Definition toTextBox (pageNum : positive) (item : TextItem.t) : TextBox.t :=
  TextBox.mk (default [] (TextItem.str item))
             (TextItem.x item)
             (num_sub (TextItem.y item) (TextItem.fontHeight item))
             (TextItem.measuredWidth item)
             (TextItem.fontHeight item)
             pageNum.

(** Line 192: [pageTextBoxesRef.current[pageNum].push(textBox)]. *)
Definition pushTextBox (pageNum : positive) (box : TextBox.t)
    (pages : PageIndex) : PageIndex :=
  alter (λ boxes, boxes ++ [box]) pageNum pages.

(** [extractTextContent] once [getTextContent] has answered, as far as the
    page index goes: line 172 resets the entry of the page, the [forEach]
    pushes one box per item. *)
Definition extractTextContent (pageNum : positive) (items : list TextItem.t)
    (pages : PageIndex) : PageIndex :=
  foldl (λ pgs item, pushTextBox pageNum (toTextBox pageNum item) pgs)
        (<[pageNum := []]> pages) items.

(** The viewer together with [pageTextBoxesRef.current]. *)
Record Session := mkSession { world : World; pageTextBoxes : PageIndex }.

(** A freshly mounted component. *)
Definition freshSession : Session := mkSession initialWorld ∅.

(** One turn of the loop of [renderPDFPages] on a page that renders: the
    page container is appended to the viewer, then the text is extracted. *)
Definition renderPage (pageNum : positive) (items : list TextItem.t)
    (sess : Session) : Session :=
  mkSession (handle (PageAppended pageNum) (world sess))
            (extractTextContent pageNum items (pageTextBoxes sess)).

(** What the renderer does with a page: it renders and hands out its text
    items, or one of the three awaited calls of the loop rejects
    ([doc.getPage], line 136; [page.render], line 162;
    [page.getTextContent], line 171). *)
Inductive PageSource :=
  | PageRenders (items : list TextItem.t)
  | GetPageFails (message : jsstring)
  | RenderFails (message : jsstring)
  | TextContentFails (message : jsstring).

(** The loop of [renderPDFPages] from [pageNum] on: the session it leaves
    and the message of the rejection that ended it, if any.  A page whose
    [render] or [getTextContent] rejects has its container in the viewer
    already (line 158) and no entry in the index yet (line 172). *)
Fixpoint renderPagesFrom (pageNum : positive) (doc : list PageSource)
    (sess : Session) : Session * option jsstring :=
  match doc with
  | [] => (sess, None)
  | PageRenders items :: rest =>
      renderPagesFrom (Pos.succ pageNum) rest (renderPage pageNum items sess)
  | GetPageFails message :: _ => (sess, Some message)
  | RenderFails message :: _ | TextContentFails message :: _ =>
      (mkSession (handle (PageAppended pageNum) (world sess))
                 (pageTextBoxes sess),
       Some message)
  end.

Definition renderPDFPages (doc : list PageSource) (sess : Session)
    : Session * option jsstring :=
  renderPagesFrom 1 doc sess.

(** The number of the page rendered [k] turns after page [p]. *)
Definition pageAfter (p : positive) (k : nat) : positive :=
  Pos.of_nat (Pos.to_nat p + k).

(** What [loadAndRenderPDF] meets: no [window.pdfjsLib], a rejected
    [getDocument], or a document, given by its pages. *)
Inductive LoadOutcome :=
  | LibraryMissing
  | DocumentFailed (message : jsstring)
  | DocumentReady (doc : list PageSource).

(** The session when [renderPDFPages] is entered (lines 92-110). *)
Definition documentLoaded (numPages : nat) (sess : Session) : Session :=
  mkSession (handle (DocumentLoaded numPages)
               (handle LoadStarted (world sess)))
            (pageTextBoxes sess).

(** The [catch] block (lines 115-121). *)
Definition loadFailed (message : jsstring) (sess : Session) : Session :=
  mkSession (handle (LoadFailed (js "Failed to load PDF: " ++ message))
               (world sess))
            (pageTextBoxes sess).

(** [loadAndRenderPDF] (lines 90-122), with the viewer element mounted. *)
Definition loadAndRenderPDF (outcome : LoadOutcome) (sess : Session)
    : Session :=
  let started := mkSession (handle LoadStarted (world sess))
                           (pageTextBoxes sess) in
  match outcome with
  | LibraryMissing => loadFailed (js "PDF.js library not loaded") started
  | DocumentFailed message => loadFailed message started
  | DocumentReady doc =>
      let rendered := renderPDFPages doc (documentLoaded (length doc) sess) in
      match snd rendered with
      | None =>
          mkSession (handle LoadFinished (world (fst rendered)))
                    (pageTextBoxes (fst rendered))
      | Some message => loadFailed message (fst rendered)
      end
  end.

(** The three [alert] calls of [handleReferenceClick]. *)
Inductive Alert :=
  | PleaseWait
  | NotFound (referenceNumber : N) (searchTerms : jsstring)
  | CouldNotCreate (page : positive).

(** Line 356: [config ? config.variations.join(', ') : 'unknown terms']. *)
Definition searchTermsOf (config : option PhraseSpec.t) : jsstring :=
  match config with
  | Some c => join (js ", ") (PhraseSpec.variations c)
  | None => js "unknown terms"
  end.

(** [handleReferenceClick(referenceNumber)]: the alert shown, if any, and
    the session it leaves. *)
Definition handleReferenceClick (SEARCH_PHRASES : gmap N PhraseSpec.t)
    (referenceNumber : N) (sess : Session) : option Alert * Session :=
  if loading (state (world sess)) then (Some PleaseWait, sess)
  else
    match findPhrase SEARCH_PHRASES (pageTextBoxes sess) referenceNumber with
    | None =>
        (Some (NotFound referenceNumber
                 (searchTermsOf (SEARCH_PHRASES !! referenceNumber))),
         sess)
    | Some found =>
        let created :=
          createHighlight (MatchResult.page found) (MatchResult.rect found)
                          (world sess) in
        (if fst created then None
         else Some (CouldNotCreate (MatchResult.page found)),
         mkSession (snd created) (pageTextBoxes sess))
    end.

(** What the user can do in the analysis panel: activate a reference link
    (by click or by the Enter key), or press the clear button, which is
    disabled while there is no highlight (line 501). *)
Inductive UserAction :=
  | ClickReference (referenceNumber : N)
  | ClickClear.

Definition act (SEARCH_PHRASES : gmap N PhraseSpec.t) (sess : Session)
    (a : UserAction) : Session :=
  match a with
  | ClickReference n => snd (handleReferenceClick SEARCH_PHRASES n sess)
  | ClickClear =>
      match currentHighlight (state (world sess)) with
      | Some _ => mkSession (clearHighlights (world sess)) (pageTextBoxes sess)
      | None => sess
      end
  end.

(** ** Derived notions *)

(** Total length of the lowercased texts of a list of boxes. *)
Definition loweredLength (l : list TextBox.t) : nat :=
  sum_list_with (λ b, length (toLowerCase (TextBox.str b))) l.

(** Length of the longest text among a list of boxes. *)
Definition maxTextLength (l : list TextBox.t) : nat :=
  max_list_with (λ b, length (TextBox.str b)) l.

(** The lowercased texts of a list of boxes, concatenated without
    separator. *)
Definition runText (l : list TextBox.t) : jsstring :=
  concat (map (λ b, toLowerCase (TextBox.str b)) l).

(** The window is the stretch [boxes[j..i)] for some [j]. *)
Definition contiguous (boxes : list TextBox.t) (i : nat) (w : Window) : Prop :=
  ∃ j, (j ≤ i)%nat ∧ currentBoxes w = take (i - j) (drop j boxes).

(** No box has a lowercased text longer than its own text or than the
    text of a box before it. *)
Definition noLongerThanEarlier (boxes : list TextBox.t) : Prop :=
  ∀ j i bj bi,
    (j ≤ i)%nat → boxes !! j = Some bj → boxes !! i = Some bi →
    (length (toLowerCase (TextBox.str bi)) ≤ length (TextBox.str bj))%nat.

(** [m] is the least, resp. greatest, element of [l] in the numeric
    order. *)
Definition isMinimum (m : number) (l : list number) : Prop :=
  m ∈ l ∧ ∀ x, x ∈ l → num_le m x.
Definition isMaximum (m : number) (l : list number) : Prop :=
  m ∈ l ∧ ∀ x, x ∈ l → num_le x m.

(** [box.left + box.width] and [box.top + box.height]. *)
Definition rightOf (b : TextBox.t) : number :=
  num_add (TextBox.left b) (TextBox.width b).
Definition bottomOf (b : TextBox.t) : number :=
  num_add (TextBox.top b) (TextBox.height b).

(** [x] is not NaN: it compares to itself. *)
Definition isNumber (x : number) : Prop := num_le x x.

(** None of the four numbers the reduction reads from the box is NaN. *)
Definition numericBox (b : TextBox.t) : Prop :=
  isNumber (TextBox.left b) ∧ isNumber (TextBox.top b) ∧
  isNumber (rightOf b) ∧ isNumber (bottomOf b).

(** The four numbers of the box are finite. *)
Definition finiteBox (b : TextBox.t) : Prop :=
  num_finite (TextBox.left b) ∧ num_finite (TextBox.top b) ∧
  num_finite (TextBox.width b) ∧ num_finite (TextBox.height b).

(** The variation occurs in the page text (line 270). *)
Definition occursIn (pageText : jsstring) (variation : jsstring) : bool :=
  negb (indexOf pageText (toLowerCase variation) =? -1).

(** The two tests a variation has to pass on a page (lines 270 and 276). *)
Definition variationMatches (boxes : list TextBox.t) (pageText : jsstring)
    (variation : jsstring) : bool :=
  negb (indexOf pageText (toLowerCase variation) =? -1) &&
  (0 <? length (findMatchingTextBoxes boxes (toLowerCase variation)))%nat.

(** The result [findPhrase] builds for a page and a variation. *)
Definition resultFor (pageNum : positive) (boxes : list TextBox.t)
    (variation : jsstring) : MatchResult.t :=
  MatchResult.mk pageNum
    (calculateBoundingRect
       (findMatchingTextBoxes boxes (toLowerCase variation))).

(** What one page contributes to the search. *)
Definition pageOutcome (pages : PageIndex) (variations : list jsstring)
    (pageNum : positive) : option MatchResult.t :=
  match pages !! pageNum with
  | None => None
  | Some boxes => tryVariations boxes (pageTextOf boxes) pageNum variations
  end.

(** Every listed variation fails on the page, if the page is indexed at
    all: it is missing from the page text or its scan comes back empty. *)
Definition yieldsNoRun (pages : PageIndex) (variations : list jsstring)
    (pageNum : positive) : Prop :=
  ∀ boxes v,
    pages !! pageNum = Some boxes → v ∈ variations →
    indexOf (pageTextOf boxes) (toLowerCase v) = -1 ∨
    findMatchingTextBoxes boxes (toLowerCase v) = [].

(** Two boxes that differ at most in the letter case of their texts, the
    texts having the same length. *)
Definition sameButCase (b b' : TextBox.t) : Prop :=
  toLowerCase (TextBox.str b) = toLowerCase (TextBox.str b') ∧
  length (TextBox.str b) = length (TextBox.str b') ∧
  TextBox.left b = TextBox.left b' ∧ TextBox.top b = TextBox.top b' ∧
  TextBox.width b = TextBox.width b' ∧ TextBox.height b = TextBox.height b'.

(** The box with its text lowercased. *)
Definition lowerBox (b : TextBox.t) : TextBox.t :=
  TextBox.mk (toLowerCase (TextBox.str b)) (TextBox.left b) (TextBox.top b)
             (TextBox.width b) (TextBox.height b) (TextBox.pageNumber b).

(** Two entries of the configuration whose variations agree once
    lowercased, with the same page hint. *)
Definition sameSpecButCase (c c' : PhraseSpec.t) : Prop :=
  map toLowerCase (PhraseSpec.variations c)
  = map toLowerCase (PhraseSpec.variations c') ∧
  PhraseSpec.pageHint c = PhraseSpec.pageHint c'.

(** The message a page rejects with, if it does, and whether its
    container is in the viewer by then. *)
Definition rejection (src : PageSource) : option jsstring :=
  match src with
  | PageRenders _ => None
  | GetPageFails message | RenderFails message | TextContentFails message =>
      Some message
  end.

Definition containerAppended (src : PageSource) : bool :=
  match src with
  | GetPageFails _ => false
  | _ => true
  end.

(** The world after a sequence of events. *)
Definition run (evs : list Event) (w : World) : World :=
  foldl (λ w ev, handle ev w) w evs.

(** The update literal that has the effect of [first] followed by
    [second]: [{ ...first, ...second }]. *)
Definition mergeUpdates (first second : Updates.t) : Updates.t :=
  Updates.mk
    (default (Updates.pdfjsLoaded first) (Some <$> Updates.pdfjsLoaded second))
    (default (Updates.pdfDoc first) (Some <$> Updates.pdfDoc second))
    (default (Updates.loading first) (Some <$> Updates.loading second))
    (default (Updates.error first) (Some <$> Updates.error second))
    (default (Updates.currentHighlight first)
             (Some <$> Updates.currentHighlight second)).

(** Every indexed page has its container in the viewer. *)
Definition indexedPagesRendered (sess : Session) : Prop :=
  ∀ p, is_Some (pageTextBoxes sess !! p) →
       p ∈ pageContainers (dom (world sess)).

(** The highlight elements of the viewer are those of the state slot. *)
Definition slotShown (w : World) : Prop :=
  highlights (dom w)
  = match currentHighlight (state w) with
    | Some h => [(Highlight.pageNumber h, Highlight.rect h)]
    | None => []
    end.

(** Every indexed page is rendered and the viewer shows the slot. *)
Definition coherent (sess : Session) : Prop :=
  indexedPagesRendered sess ∧ slotShown (world sess).

(** A component that has not begun to load: nothing indexed, nothing in
    the viewer, no highlight. *)
Definition pristine (sess : Session) : Prop :=
  pageTextBoxes sess = ∅ ∧ dom (world sess) = mkDom [] [] ∧
  currentHighlight (state (world sess)) = None.

(** The sessions the component passes through: before the load; while
    [loadAndRenderPDF] runs, after line 92 and then with some pages of the
    document dealt with; after the load; and after a user action on any of
    these. *)
Inductive reachable (SEARCH_PHRASES : gmap N PhraseSpec.t)
    : Session → Prop :=
  | reachable_pristine start :
      pristine start → reachable SEARCH_PHRASES start
  | reachable_started start :
      pristine start →
      reachable SEARCH_PHRASES
        (mkSession (handle LoadStarted (world start)) (pageTextBoxes start))
  | reachable_rendering start numPages pagesSoFar :
      pristine start →
      reachable SEARCH_PHRASES
        (fst (renderPDFPages pagesSoFar (documentLoaded numPages start)))
  | reachable_loaded start outcome :
      pristine start →
      reachable SEARCH_PHRASES (loadAndRenderPDF outcome start)
  | reachable_acted sess a :
      reachable SEARCH_PHRASES sess →
      reachable SEARCH_PHRASES (act SEARCH_PHRASES sess a).

End Model.

(** ** Sample pages, on the executable platform *)

Definition textBox (s : string) (x y w h : Z) (p : positive)
    : @TextBox.t refPlatform :=
  @TextBox.mk refPlatform (js s) (RFin x) (RFin y) (RFin w) (RFin h) p.

Definition textItem (s : option string) (x y fontHeight w : Z)
    : @TextItem.t refPlatform :=
  @TextItem.mk refPlatform (js <$> s) (RFin x) (RFin y) (RFin fontHeight)
               (RFin w).

(** A page 3 whose phrase "2.3 bn" is split over two fragments and
    repeated in a later one. *)
Definition splitPhrasePage : list (@TextBox.t refPlatform) :=
  [ textBox "Highlights for Q2 2025" 40 30 150 14 3;
    textBox "Revenue up, EBITDA of USD 2." 40 60 190 12 3;
    textBox "3 bn (USD 2.1 bn)" 230 60 110 12 3;
    textBox "2.3 bn" 400 200 40 12 3 ].

Definition splitPhraseIndex : gmap positive (list (@TextBox.t refPlatform)) :=
  {[ 3%positive := splitPhrasePage ]}.

(** A page that opens with three empty fragments, and the same page
    without them: four texts of nine characters each. *)
Definition emptyLeadPage : list (@TextBox.t refPlatform) :=
  [ textBox "" 0 0 0 10 5; textBox "" 0 0 0 10 5; textBox "" 0 0 0 10 5;
    textBox "Ocean rev" 10 20 60 10 5; textBox "enue incr" 70 20 60 10 5;
    textBox "eased by " 130 20 60 10 5; textBox "about 2 p" 190 20 60 10 5 ].

Definition uniformPage : list (@TextBox.t refPlatform) := drop 3 emptyLeadPage.

(** Pages 2, 5 and 9 indexed out of order; only page 5 and page 9 carry
    the phrase of reference 2. *)
Definition threePages : gmap positive (list (@TextBox.t refPlatform)) :=
  <[9%positive := [textBox "increased by 2.4%" 10 10 90 12 9]]>
  (<[2%positive := [textBox "Contents" 10 10 50 12 2]]>
  (<[5%positive := [textBox "Ocean revenue" 10 40 80 12 5;
                    textBox "increased" 90 40 55 12 5;
                    textBox "by 2.4%" 145 40 45 12 5]]> ∅)).

(** The shipped configuration with the page hint of reference 2 removed. *)
Definition unhintedPhrases : gmap N PhraseSpec.t :=
  <[2%N := PhraseSpec.mk (PhraseSpec.canonical oceanSpec)
             (PhraseSpec.variations oceanSpec) None]> SEARCH_PHRASES.

(** Page 15 with the phrase of reference 3 split over two fragments. *)
Definition gainPage : list (@TextBox.t refPlatform) :=
  [ textBox "Gain on" 30 100 45 12 15;
    textBox "sale of non-current assets" 80 100 160 12 15 ].

Definition gainIndex : gmap positive (list (@TextBox.t refPlatform)) :=
  {[ 15%positive := gainPage ]}.

(** The same page in capitals and in small letters. *)
Definition capitalsIndex : gmap positive (list (@TextBox.t refPlatform)) :=
  {[ 3%positive := [textBox "EBITDA OF USD 2.3 BN" 40 60 150 12 3] ]}.
Definition smallIndex : gmap positive (list (@TextBox.t refPlatform)) :=
  {[ 3%positive := [textBox "ebitda of usd 2.3 bn" 40 60 150 12 3] ]}.

(** The code units of "İKİ İLKİN İKİLİ", a heading in which the capital I
    with dot above (U+0130) occurs seven times, and of its lowercase form,
    which is seven units longer. *)
Definition dottedHeading : jsstring :=
  [304; 75; 304; 32; 304; 76; 75; 304; 78; 32; 304; 75; 304; 76; 304]%N.
Definition dottedHeadingLower : jsstring := basicLower dottedHeading.

(** A page 3 under that heading, and the same page in small letters. *)
Definition dottedPageWith (heading line : jsstring)
    : list (@TextBox.t refPlatform) :=
  [ @TextBox.mk refPlatform heading (RFin 40) (RFin 30) (RFin 120) (RFin 14) 3;
    @TextBox.mk refPlatform line (RFin 40) (RFin 60) (RFin 170) (RFin 12) 3;
    textBox "bn" 212 60 16 12 3;
    textBox "2.3" 300 200 20 12 3;
    textBox "bn" 330 200 16 12 3 ].

Definition dottedPage : list (@TextBox.t refPlatform) :=
  dottedPageWith dottedHeading (js "EBITDA of about USD 2.3 ").
Definition dottedPageLower : list (@TextBox.t refPlatform) :=
  dottedPageWith dottedHeadingLower (js "ebitda of about usd 2.3 ").

Definition dottedIndex : gmap positive (list (@TextBox.t refPlatform)) :=
  {[ 3%positive := dottedPage ]}.
Definition dottedIndexLower : gmap positive (list (@TextBox.t refPlatform)) :=
  {[ 3%positive := dottedPageLower ]}.

Definition rect (x y w h : Z) : @Rect.t refPlatform :=
  @Rect.mk refPlatform (RFin x) (RFin y) (RFin w) (RFin h).

Definition sampleRect : @Rect.t refPlatform := rect 40 60 150 12.

(** The text items of a document of three pages, the second without
    text. *)
Definition sampleItems : list (list (@TextItem.t refPlatform)) :=
  [ [ textItem (Some "Interim Report"%string) 40 50 20 120;
      textItem None 0 0 0 0 ];
    [];
    [ textItem (Some "EBITDA of USD"%string) 40 72 12 90;
      textItem (Some " 2.3 bn"%string) 130 72 12 40 ] ].

(** The document when every page renders, and when rendering its third
    page is rejected. *)
Definition sampleDocument : list (@PageSource refPlatform) :=
  map (@PageRenders refPlatform) sampleItems.
Definition brokenDocument : list (@PageSource refPlatform) :=
  map (@PageRenders refPlatform) (take 2 sampleItems)
  ++ [@RenderFails refPlatform (js "Invalid page")].

(** * Facts *)

(** ** Facts about strings *)

Section Strings.
Implicit Types s t pre post : jsstring.

Lemma startsWith_true s t :
  startsWith s t = true ↔ ∃ post, s = t ++ post.
Proof.
  revert s. induction t as [|c t IH]; intros s; simpl.
  - split; [by exists s|done].
  - destruct s as [|d s].
    + split; [done|]. intros [post Hp]. discriminate Hp.
    + destruct (N.eqb_spec c d) as [->|Hne].
      * rewrite IH. split; intros [post Hp]; exists post.
        -- by rewrite Hp.
        -- by injection Hp.
      * split; [done|]. intros [post Hp]. by injection Hp as -> _.
Qed.

Lemma indexOfFrom_found s t k :
  indexOfFrom s t k ≠ -1 ↔ ∃ pre post, s = pre ++ t ++ post.
Proof.
  revert k. induction s as [|d s IH]; intros k; simpl.
  - destruct (startsWith [] t) eqn:E.
    + split; [|lia]. intros _. apply startsWith_true in E as [post E].
      by exists [], post.
    + split; [done|]. intros (pre & post & Hs).
      destruct pre; [|done]. simpl in Hs.
      assert (startsWith [] t = true) as E'
        by (apply startsWith_true; eauto).
      congruence.
  - destruct (startsWith (d :: s) t) eqn:E.
    + split; [|lia]. intros _. apply startsWith_true in E as [post E].
      by exists [], post.
    + rewrite IH. split.
      * intros (pre & post & ->). by exists (d :: pre), post.
      * intros (pre & post & Hs). destruct pre as [|d' pre].
        -- simpl in Hs.
           assert (startsWith (d :: s) t = true) as E'
             by (apply startsWith_true; eauto).
           congruence.
        -- injection Hs as _ ->. eauto.
Qed.

Lemma indexOf_found s t :
  indexOf s t ≠ -1 ↔ ∃ pre post, s = pre ++ t ++ post.
Proof. apply indexOfFrom_found. Qed.

Lemma includes_true s t :
  includes s t = true ↔ ∃ pre post, s = pre ++ t ++ post.
Proof.
  unfold includes. rewrite <- indexOf_found.
  destruct (Z.eqb_spec (indexOf s t) (-1)); simpl; split; done.
Qed.

Lemma includes_app pre t post s :
  includes t s = true → includes (pre ++ t ++ post) s = true.
Proof.
  rewrite !includes_true. intros (a & b & ->).
  exists (pre ++ a), (b ++ post). by rewrite <- !app_assoc.
Qed.

Lemma includes_nil s : includes s [] = true.
Proof. apply includes_true. by exists [], s. Qed.

Lemma join_elem_of sep (l : list jsstring) x :
  x ∈ l → ∃ pre post, join sep l = pre ++ x ++ post.
Proof.
  induction l as [|y [|z l] IH]; intros Hx.
  - by apply not_elem_of_nil in Hx.
  - apply list_elem_of_singleton in Hx as ->. exists [], [].
    by rewrite app_nil_r.
  - change (join sep (y :: z :: l)) with (y ++ sep ++ join sep (z :: l)).
    apply elem_of_cons in Hx as [->|Hx].
    + exists [], (sep ++ join sep (z :: l)). done.
    + destruct (IH Hx) as (pre & post & ->).
      exists (y ++ sep ++ pre), post. by rewrite <- !app_assoc.
Qed.

End Strings.

(** ** Facts about the scan of [findMatchingTextBoxes] *)

Lemma drop_1_take_drop {A} (l : list A) n j :
  drop 1 (take (S n) (drop j l)) = take n (drop (S j) l).
Proof.
  replace (S j) with (j + 1)%nat by lia.
  rewrite <- (drop_drop l 1 j), (take_drop_commute (drop j l) n 1). done.
Qed.

Section Scan.
Context `{P : Platform}.
Variable boxes : list TextBox.t.
Variable searchText : jsstring.

Lemma trimIndex_le i : (trimIndex i ≤ i)%nat.
Proof. unfold trimIndex. lia. Qed.

(** The box whose length [slide] reads always exists. *)
Lemma trimIndex_lookup i b :
  boxes !! i = Some b →
  ∃ old, boxes !! trimIndex i = Some old ∧ boxes !!! trimIndex i = old.
Proof.
  intros Hb. apply lookup_lt_Some in Hb.
  destruct (lookup_lt_is_Some_2 boxes (trimIndex i)) as [old Hold].
  { pose proof (trimIndex_le i). lia. }
  exists old. split; [done|]. by apply list_lookup_total_correct.
Qed.

(** Induction along the turns of the loop. *)
Lemma windowFrom_invariant (Q : nat → Window → Prop) :
  (∀ i b w,
     boxes !! i = Some b → Q i w →
     includes (currentText (push b w)) searchText = false →
     Q (S i) (slide boxes searchText i (push b w))) →
  ∀ k i w w',
    Q i w →
    windowFrom boxes searchText (drop i boxes) i w k = Some w' →
    Q (i + k)%nat w'.
Proof.
  intros Hstep. induction k as [|k IH]; intros i w w' HP Hw; simpl in Hw.
  - injection Hw as <-. by rewrite Nat.add_0_r.
  - destruct (drop i boxes) as [|b rest] eqn:Hd; [done|].
    assert (boxes !! i = Some b) as Hb.
    { rewrite <- (Nat.add_0_r i), <- lookup_drop, Hd. done. }
    assert (rest = drop (S i) boxes) as ->.
    { replace (S i) with (i + 1)%nat by lia.
      rewrite <- drop_drop, Hd. done. }
    unfold iteration in Hw.
    destruct (includes (currentText (push b w)) searchText) eqn:Hinc;
      [done|].
    replace (i + S k)%nat with (S i + k)%nat by lia.
    eapply IH; [|exact Hw]. by apply Hstep.
Qed.

Lemma windowAt_invariant (Q : nat → Window → Prop) :
  Q O emptyWindow →
  (∀ i b w,
     boxes !! i = Some b → Q i w →
     includes (currentText (push b w)) searchText = false →
     Q (S i) (slide boxes searchText i (push b w))) →
  ∀ k w, windowAt boxes searchText k = Some w → Q k w.
Proof.
  intros H0 Hstep k w Hw.
  apply (windowFrom_invariant Q Hstep k O emptyWindow w H0 Hw).
Qed.

(** A turn that is reached is a turn of the source loop: the loop
    resumes from it. *)
Lemma scanFrom_windowFrom k : ∀ rest i w w',
  windowFrom boxes searchText rest i w k = Some w' →
  scanFrom boxes searchText rest i w
  = scanFrom boxes searchText (drop k rest) (i + k) w'.
Proof.
  induction k as [|k IH]; intros rest i w w' Hw; simpl in Hw.
  - injection Hw as <-. by rewrite Nat.add_0_r.
  - destruct rest as [|b rest]; [done|]. simpl.
    destruct (iteration boxes searchText i b w) as [run|w1]; [done|].
    rewrite (IH _ _ _ _ Hw). f_equal. lia.
Qed.

Lemma windowFrom_length k : ∀ rest i w w',
  windowFrom boxes searchText rest i w k = Some w' → (k ≤ length rest)%nat.
Proof.
  induction k as [|k IH]; intros rest i w w' Hw; simpl in Hw; [lia|].
  destruct rest as [|b rest]; [done|].
  destruct (iteration boxes searchText i b w) as [run|w1]; [done|].
  apply IH in Hw. simpl. lia.
Qed.

(** A non-empty result comes from the first turn whose buffer contains
    the search text, and is the window of that turn. *)
Lemma scanFrom_nonempty : ∀ rest i w run,
  scanFrom boxes searchText rest i w = run → run ≠ [] →
  ∃ k w' b,
    windowFrom boxes searchText rest i w k = Some w' ∧
    rest !! k = Some b ∧
    includes (currentText (push b w')) searchText = true ∧
    run = currentBoxes (push b w').
Proof.
  induction rest as [|b rest IH]; intros i w run Hrun Hne; simpl in Hrun.
  - congruence.
  - unfold iteration in Hrun.
    destruct (includes (currentText (push b w)) searchText) eqn:Hinc.
    + exists O, w, b. by rewrite Hinc.
    + destruct (IH _ _ _ Hrun Hne) as (k & w' & b' & Hw & Hb & Hi & Hr).
      exists (S k), w', b'. simpl. unfold iteration. by rewrite Hinc.
Qed.

(** The scan comes back empty exactly when no turn's buffer contains
    the search text. *)
Lemma scanFrom_empty : ∀ rest i w,
  scanFrom boxes searchText rest i w = [] ↔
  ∀ k w' b,
    windowFrom boxes searchText rest i w k = Some w' →
    rest !! k = Some b →
    includes (currentText (push b w')) searchText = false.
Proof.
  induction rest as [|b rest IH]; intros i w; cbn [scanFrom].
  - split; [|done]. intros _ k w' b' _ Hb. by rewrite lookup_nil in Hb.
  - unfold iteration.
    destruct (includes (currentText (push b w)) searchText) eqn:Hinc.
    + split.
      * intros H. exfalso. revert H. simpl. by destruct (currentBoxes w).
      * intros H. rewrite (H O w b eq_refl eq_refl) in Hinc. done.
    + rewrite IH. split.
      * intros H [|k] w' b' Hw Hb; cbn [windowFrom] in Hw.
        -- injection Hw as <-. injection Hb as <-. done.
        -- unfold iteration in Hw. rewrite Hinc in Hw. eauto.
      * intros H k w' b' Hw Hb. apply (H (S k) w' b'); [|done].
        cbn [windowFrom]. unfold iteration. by rewrite Hinc.
Qed.

Lemma contiguous_push i b w :
  boxes !! i = Some b → contiguous boxes i w →
  ∃ j, (j ≤ i)%nat ∧
       currentBoxes (push b w) = take (S i - j) (drop j boxes).
Proof.
  intros Hb (j & Hj & Hw). exists j. split; [done|]. simpl. rewrite Hw.
  replace (S i - j)%nat with (S (i - j)) by lia.
  symmetry. apply take_S_r. rewrite lookup_drop.
  by replace (j + (i - j))%nat with i by lia.
Qed.

Lemma windowAt_contiguous k w :
  windowAt boxes searchText k = Some w → contiguous boxes k w.
Proof.
  apply (windowAt_invariant (contiguous boxes)).
  - exists O. split; [done|]. by rewrite take_0.
  - intros i b w0 Hb Hc _.
    destruct (contiguous_push i b w0 Hb Hc) as (j & Hj & Hp).
    unfold slide.
    destruct (length searchText * 3 <? length (currentText (push b w0)))%nat.
    + exists (S j). split; [lia|]. simpl currentBoxes at 1.
      change (currentBoxes w0 ++ [b]) with (currentBoxes (push b w0)).
      rewrite Hp. replace (S i - j)%nat with (S (i - j)) by lia.
      apply drop_1_take_drop.
    + exists j. split; [lia|]. done.
Qed.

(** No turn is taken past the last box, the window never holds more
    boxes than turns were taken, and the buffer never holds more than
    the texts read so far. *)
Lemma windowAt_visited k w :
  windowAt boxes searchText k = Some w →
  (k ≤ length boxes)%nat ∧
  (length (currentBoxes w) ≤ k)%nat ∧
  (length (currentText w) ≤ loweredLength (take k boxes))%nat.
Proof.
  intros Hw. split.
  { by apply windowFrom_length in Hw. }
  revert k w Hw.
  apply (windowAt_invariant
           (λ k w, (length (currentBoxes w) ≤ k)%nat ∧
                   (length (currentText w) ≤ loweredLength (take k boxes))%nat)).
  - simpl. lia.
  - intros i b w Hb [Hn Ht] _.
    assert (length (currentBoxes (push b w)) ≤ S i ∧
            length (currentText (push b w)) ≤ loweredLength (take (S i) boxes))%nat
      as [Hn' Ht'].
    { simpl. rewrite !length_app. simpl.
      rewrite (take_S_r _ _ _ Hb). unfold loweredLength in *.
      rewrite sum_list_with_app. simpl. lia. }
    unfold slide.
    destruct (length searchText * 3 <? length (currentText (push b w)))%nat;
      [|done].
    cbn [currentBoxes currentText]. unfold substring.
    rewrite !length_drop. split; lia.
Qed.
End Scan.

Section Facts.
Context `{P : Platform} `{NL : !NumberLaws P} `{SL : !StringLaws P}.

Lemma maxTextLength_elem_of (b : TextBox.t) (boxes : list TextBox.t) :
  b ∈ boxes → (length (TextBox.str b) ≤ maxTextLength boxes)%nat.
Proof. unfold maxTextLength. induction 1; simpl; lia. Qed.

Lemma windowAt_noLongerThanEarlier boxes searchText k w :
  noLongerThanEarlier boxes →
  windowAt boxes searchText k = Some w →
  (length (currentText w) ≤ 3 * length searchText)%nat.
Proof.
  intros Hmono. revert k w.
  apply (windowAt_invariant boxes searchText
           (λ _ w, (length (currentText w) ≤ 3 * length searchText)%nat)).
  - simpl. lia.
  - intros i b w Hb Hlen _. unfold slide.
    destruct (Nat.ltb_spec (length searchText * 3)
                (length (currentText (push b w)))) as [Hlt|Hge]; [|lia].
    cbn [currentText]. unfold substring. rewrite length_drop.
    destruct (trimIndex_lookup boxes i b Hb) as (old & Hold & ->).
    pose proof (Hmono _ _ _ _ (trimIndex_le i) Hold Hb).
    simpl. rewrite length_app. lia.
Qed.

(** The matching run, when there is one, is a stretch [boxes[j..i]] of the
    page, and turn [i] is the first whose buffer contains the search
    text. *)
Lemma findMatchingTextBoxes_contiguous boxes searchText run :
  findMatchingTextBoxes boxes searchText = run → run ≠ [] →
  ∃ j i w b,
    (j ≤ i)%nat ∧ boxes !! i = Some b ∧
    run = take (S i - j) (drop j boxes) ∧
    windowAt boxes searchText i = Some w ∧
    includes (currentText (push b w)) searchText = true.
Proof.
  intros Hrun Hne.
  destruct (scanFrom_nonempty boxes searchText _ _ _ _ Hrun Hne)
    as (i & w & b & Hw & Hb & Hinc & ->).
  destruct (contiguous_push boxes i b w Hb
              (windowAt_contiguous boxes searchText i w Hw))
    as (j & Hj & Hp).
  by exists j, i, w, b.
Qed.

(** A turn is reached only if no earlier turn's buffer contained the
    search text. *)
Lemma windowFrom_earlier boxes searchText i : ∀ rest n w0 w,
  windowFrom boxes searchText rest n w0 i = Some w →
  ∀ k b, (k < i)%nat → rest !! k = Some b →
    ∃ w', windowFrom boxes searchText rest n w0 k = Some w' ∧
          includes (currentText (push b w')) searchText = false.
Proof.
  induction i as [|i IH]; intros rest n w0 w Hw k b Hk Hb; [lia|].
  cbn [windowFrom] in Hw. destruct rest as [|b0 rest]; [done|].
  unfold iteration in Hw.
  destruct (includes (currentText (push b0 w0)) searchText) eqn:Hinc; [done|].
  destruct k as [|k].
  - injection Hb as <-. by exists w0.
  - destruct (IH _ _ _ _ Hw k b ltac:(lia) Hb) as (w' & Hw' & Hi).
    exists w'. split; [|done]. cbn [windowFrom]. unfold iteration.
    by rewrite Hinc.
Qed.

(** ** Fragment-run resolution: the sliding window *)

(** C7, amended.  Turn [k] is reached at most once and only for
    [k <= F]; the window holds at most the [k] boxes read so far and the
    buffer at most the total length of their lowercased texts, also right
    after the next box is appended.  On a page where no lowercased text is
    longer than the box's own text or than the text of an earlier box, the
    buffer stays within [3L] between turns and within [3L] plus the
    longest text length after an append. *)
Theorem scan_visits_and_buffer_bound boxes searchText k w :
  windowAt boxes searchText k = Some w →
  (k ≤ length boxes)%nat ∧
  (length (currentBoxes w) ≤ k)%nat ∧
  (length (currentText w) ≤ loweredLength (take k boxes))%nat ∧
  (∀ b, boxes !! k = Some b →
        (length (currentText (push b w))
         ≤ loweredLength (take (S k) boxes))%nat) ∧
  (noLongerThanEarlier boxes →
     (length (currentText w) ≤ 3 * length searchText)%nat ∧
     ∀ b, boxes !! k = Some b →
          (length (currentText (push b w))
           ≤ 3 * length searchText + maxTextLength boxes)%nat).
Proof.
  intros Hw.
  destruct (windowAt_visited boxes searchText k w Hw) as (Hk & Hn & Ht).
  split; [done|]. split; [done|]. split; [done|]. split.
  - intros b Hb. simpl. rewrite length_app.
    rewrite (take_S_r _ _ _ Hb). unfold loweredLength in *.
    rewrite sum_list_with_app. simpl. lia.
  - intros Hmono. split; [by eapply windowAt_noLongerThanEarlier|].
    intros b Hb. simpl. rewrite length_app.
    pose proof (windowAt_noLongerThanEarlier _ _ _ _ Hmono Hw).
    pose proof (maxTextLength_elem_of b boxes
                  (proj2 (list_elem_of_lookup _ _) (ex_intro _ k Hb))).
    pose proof (Hmono k k b b (Nat.le_refl k) Hb Hb).
    lia.
Qed.

(** ** The bounding rectangle *)

(** The four accumulators are folded independently. *)
Lemma foldl_extend boxes : ∀ e,
  foldl extend e boxes
  = mkExtent (foldl Math_min (minLeft e) (map TextBox.left boxes))
             (foldl Math_min (minTop e) (map TextBox.top boxes))
             (foldl Math_max (maxRight e) (map rightOf boxes))
             (foldl Math_max (maxBottom e) (map bottomOf boxes)).
Proof.
  induction boxes as [|box boxes IH]; intros e.
  - by destruct e.
  - cbn [foldl map]. rewrite IH. done.
Qed.

Lemma calculateBoundingRect_cons box boxes :
  calculateBoundingRect (box :: boxes)
  = let l := foldl Math_min (TextBox.left box) (map TextBox.left boxes) in
    let t := foldl Math_min (TextBox.top box) (map TextBox.top boxes) in
    let r := foldl Math_max (rightOf box) (map rightOf boxes) in
    let b := foldl Math_max (bottomOf box) (map bottomOf boxes) in
    Rect.mk l t (num_sub r l) (num_sub b t).
Proof.
  unfold calculateBoundingRect. cbn [length Nat.eqb foldl].
  rewrite foldl_extend. cbn [extend minLeft minTop maxRight maxBottom].
  rewrite !min_infinity, !max_neg_infinity. done.
Qed.

Lemma foldl_min_isMinimum l : ∀ a,
  isNumber a → Forall isNumber l →
  isMinimum (foldl Math_min a l) (a :: l).
Proof.
  induction l as [|x l IH]; intros a Ha Hl.
  - split; [apply list_elem_of_here|].
    by intros y ->%list_elem_of_singleton.
  - apply Forall_cons in Hl as [Hx Hl]. cbn [foldl].
    assert (isNumber (Math_min a x)) as Hm
      by (destruct (min_cases a x) as [-> | ->]; done).
    destruct (IH _ Hm Hl) as [Hin Hle]. split.
    + apply elem_of_cons in Hin as [Hin|Hin].
      * rewrite Hin. destruct (min_cases a x) as [-> | ->].
        -- apply list_elem_of_here.
        -- apply list_elem_of_further, list_elem_of_here.
      * by do 2 apply list_elem_of_further.
    + pose proof (Hle _ (list_elem_of_here _ _)) as Hmin.
      intros y Hy. apply elem_of_cons in Hy as [->|Hy].
      { eapply le_trans; [exact Hmin|]. by apply min_le_l. }
      apply elem_of_cons in Hy as [->|Hy].
      { eapply le_trans; [exact Hmin|]. rewrite min_comm. by apply min_le_l. }
      apply Hle. by apply list_elem_of_further.
Qed.

Lemma foldl_max_isMaximum l : ∀ a,
  isNumber a → Forall isNumber l →
  isMaximum (foldl Math_max a l) (a :: l).
Proof.
  induction l as [|x l IH]; intros a Ha Hl.
  - split; [apply list_elem_of_here|].
    by intros y ->%list_elem_of_singleton.
  - apply Forall_cons in Hl as [Hx Hl]. cbn [foldl].
    assert (isNumber (Math_max a x)) as Hm
      by (destruct (max_cases a x) as [-> | ->]; done).
    destruct (IH _ Hm Hl) as [Hin Hle]. split.
    + apply elem_of_cons in Hin as [Hin|Hin].
      * rewrite Hin. destruct (max_cases a x) as [-> | ->].
        -- apply list_elem_of_here.
        -- apply list_elem_of_further, list_elem_of_here.
      * by do 2 apply list_elem_of_further.
    + pose proof (Hle _ (list_elem_of_here _ _)) as Hmax.
      intros y Hy. apply elem_of_cons in Hy as [->|Hy].
      { eapply le_trans; [|exact Hmax]. by apply max_le_l. }
      apply elem_of_cons in Hy as [->|Hy].
      { eapply le_trans; [|exact Hmax]. rewrite max_comm. by apply max_le_l. }
      apply Hle. by apply list_elem_of_further.
Qed.

Lemma Forall_map_numericBox (f : TextBox.t → number) boxes :
  (∀ b, numericBox b → isNumber (f b)) →
  Forall numericBox boxes → Forall isNumber (map f boxes).
Proof.
  intros Hf Hall. apply Forall_forall. intros x Hx.
  apply list_elem_of_In, in_map_iff in Hx as (b & <- & Hb).
  apply Hf. apply (proj1 (Forall_forall _ _) Hall). by apply list_elem_of_In.
Qed.

Lemma finiteBox_numeric b : finiteBox b → numericBox b.
Proof.
  intros (Hl & Ht & Hw & Hh). unfold numericBox, isNumber, rightOf, bottomOf.
  repeat split; auto using finite_le, add_number.
Qed.

Lemma boundingRect_extremes (boxes : list TextBox.t) :
  boxes ≠ [] → Forall numericBox boxes →
  ∃ l t r b,
    calculateBoundingRect boxes
      = Rect.mk l t (num_sub r l) (num_sub b t) ∧
    isMinimum l (map TextBox.left boxes) ∧
    isMinimum t (map TextBox.top boxes) ∧
    isMaximum r (map rightOf boxes) ∧
    isMaximum b (map bottomOf boxes).
Proof.
  destruct boxes as [|box boxes]; [done|]. intros _ Hall.
  rewrite calculateBoundingRect_cons. cbn zeta.
  apply Forall_cons in Hall as [(Hl & Ht & Hr & Hb) Hall].
  eexists _, _, _, _. split; [reflexivity|]. cbn [map].
  split; [|split; [|split]].
  - apply foldl_min_isMinimum; [done|].
    apply Forall_map_numericBox; [|done]. by intros ? (? & _).
  - apply foldl_min_isMinimum; [done|].
    apply Forall_map_numericBox; [|done]. by intros ? (_ & ? & _).
  - apply foldl_max_isMaximum; [done|].
    apply Forall_map_numericBox; [|done]. by intros ? (_ & _ & ? & _).
  - apply foldl_max_isMaximum; [done|].
    apply Forall_map_numericBox; [|done]. by intros ? (_ & _ & _ & ?).
Qed.

(** C4.  On a non-empty run none of whose coordinates is NaN,
    [calculateBoundingRect] returns the min/max reduction: [left] is the
    least [box.left], [top] the least [box.top], [width] is the greatest
    [box.left + box.width] minus [left], and [height] the greatest
    [box.top + box.height] minus [top], the sums and differences being
    those of the platform's numbers, as the code computes them. *)
Theorem calculateBoundingRect_min_max (boxes : list TextBox.t) :
  boxes ≠ [] → Forall numericBox boxes →
  ∃ l t r b,
    calculateBoundingRect boxes
      = Rect.mk l t (num_sub r l) (num_sub b t) ∧
    isMinimum l (map TextBox.left boxes) ∧
    isMinimum t (map TextBox.top boxes) ∧
    isMaximum r (map rightOf boxes) ∧
    isMaximum b (map bottomOf boxes).
Proof. apply boundingRect_extremes. Qed.

(** ** The structure of the search *)

Lemma variationMatches_true boxes pageText v :
  variationMatches boxes pageText v = true ↔
  indexOf pageText (toLowerCase v) ≠ -1 ∧
  findMatchingTextBoxes boxes (toLowerCase v) ≠ [].
Proof.
  unfold variationMatches. rewrite andb_true_iff, negb_true_iff.
  rewrite Z.eqb_neq, Nat.ltb_lt.
  destruct (findMatchingTextBoxes boxes (toLowerCase v)); simpl;
    split; intros [? ?]; split; (done || lia).
Qed.

Lemma variationMatches_false boxes pageText v :
  variationMatches boxes pageText v = false ↔
  indexOf pageText (toLowerCase v) = -1 ∨
  findMatchingTextBoxes boxes (toLowerCase v) = [].
Proof.
  unfold variationMatches. rewrite andb_false_iff, negb_false_iff.
  rewrite Z.eqb_eq, Nat.ltb_ge.
  destruct (findMatchingTextBoxes boxes (toLowerCase v)); simpl;
    split; intros [?|?]; (by left) || (by right) || lia.
Qed.

Lemma tryVariations_cons boxes pageText p v rest :
  tryVariations boxes pageText p (v :: rest)
  = if variationMatches boxes pageText v then Some (resultFor p boxes v)
    else tryVariations boxes pageText p rest.
Proof.
  cbn [tryVariations]. unfold variationMatches, resultFor.
  destruct (negb (indexOf pageText (toLowerCase v) =? -1)); [|done].
  by destruct (0 <? length (findMatchingTextBoxes boxes (toLowerCase v)))%nat.
Qed.

Lemma tryVariations_None boxes pageText p vars :
  tryVariations boxes pageText p vars = None ↔
  Forall (λ u, variationMatches boxes pageText u = false) vars.
Proof.
  induction vars as [|v vars IH].
  - split; [constructor|done].
  - rewrite tryVariations_cons, Forall_cons.
    destruct (variationMatches boxes pageText v).
    + split; [done | by intros [? _]].
    + rewrite IH. split; [by split | by intros [_ ?]].
Qed.

(** The first variation that passes both tests decides the page. *)
Lemma tryVariations_Some boxes pageText p vars found :
  tryVariations boxes pageText p vars = Some found ↔
  ∃ before v after,
    vars = before ++ v :: after ∧
    Forall (λ u, variationMatches boxes pageText u = false) before ∧
    variationMatches boxes pageText v = true ∧
    found = resultFor p boxes v.
Proof.
  induction vars as [|v vars IH].
  - split; [done|]. intros (before & u & after & Hv & _).
    by destruct before.
  - rewrite tryVariations_cons.
    destruct (variationMatches boxes pageText v) eqn:Hm.
    + split.
      * intros [= <-]. by exists [], v, vars.
      * intros ([|u before] & v' & after & Hv & Hb & Hm' & ->).
        -- by injection Hv as <- _.
        -- injection Hv as <- _. apply Forall_cons in Hb as [Hb _].
           congruence.
    + rewrite IH. split.
      * intros (before & v' & after & -> & Hb & Hm' & ->).
        exists (v :: before), v', after. by rewrite Forall_cons.
      * intros ([|u before] & v' & after & Hv & Hb & Hm' & ->).
        -- injection Hv as <- _. congruence.
        -- injection Hv as <- ->. apply Forall_cons in Hb as [_ Hb].
           by exists before, v', after.
Qed.

Lemma searchPages_cons pages vars p rest :
  searchPages pages vars (p :: rest)
  = match pageOutcome pages vars p with
    | Some found => Some found
    | None => searchPages pages vars rest
    end.
Proof.
  cbn [searchPages]. unfold pageOutcome.
  destruct (pages !! p) as [[|b boxes]|]; [|done..].
  simpl length. cbn [Nat.eqb].
  assert (tryVariations [] (pageTextOf []) p vars = None) as ->; [|done].
  apply tryVariations_None, Forall_forall. intros u _.
  apply variationMatches_false. by right.
Qed.

Lemma searchPages_None pages vars ps :
  searchPages pages vars ps = None ↔
  Forall (λ q, pageOutcome pages vars q = None) ps.
Proof.
  induction ps as [|p ps IH].
  - split; [constructor|done].
  - rewrite searchPages_cons, Forall_cons.
    destruct (pageOutcome pages vars p).
    + split; [done | by intros [? _]].
    + rewrite IH. split; [by split | by intros [_ ?]].
Qed.

(** The first page with an outcome decides the search. *)
Lemma searchPages_Some pages vars ps found :
  searchPages pages vars ps = Some found ↔
  ∃ before p after,
    ps = before ++ p :: after ∧
    Forall (λ q, pageOutcome pages vars q = None) before ∧
    pageOutcome pages vars p = Some found.
Proof.
  induction ps as [|p ps IH].
  - split; [done|]. intros (before & q & after & Hp & _).
    by destruct before.
  - rewrite searchPages_cons.
    destruct (pageOutcome pages vars p) as [r|] eqn:Ho.
    + split.
      * intros [= <-]. by exists [], p, ps.
      * intros ([|q before] & p' & after & Hp & Hb & Ho').
        -- injection Hp as <- _. congruence.
        -- injection Hp as <- _. apply Forall_cons in Hb as [Hb _].
           congruence.
    + rewrite IH. split.
      * intros (before & p' & after & -> & Hb & Ho').
        exists (p :: before), p', after. by rewrite Forall_cons.
      * intros ([|q before] & p' & after & Hp & Hb & Ho').
        -- injection Hp as <- _. congruence.
        -- injection Hp as <- ->. apply Forall_cons in Hb as [_ Hb].
           by exists before, p', after.
Qed.

(** ** The candidate pages *)

Lemma Object_keys_elem_of (pages : PageIndex) p :
  p ∈ Object_keys pages ↔ is_Some (pages !! p).
Proof.
  unfold Object_keys. rewrite merge_sort_Permutation.
  by rewrite elem_of_elements, elem_of_dom.
Qed.

Lemma StronglySorted_le_lt (l : list positive) :
  StronglySorted Pos.le l → NoDup l → StronglySorted Pos.lt l.
Proof.
  induction 1 as [|x l Hs IH Hx]; intros Hnd; constructor.
  - apply IH. by apply NoDup_cons in Hnd as [_ ?].
  - apply NoDup_cons in Hnd as [Hnotin _].
    apply Forall_forall. intros y Hy.
    assert (x ≠ y) by (intros ->; by apply Hnotin).
    pose proof (proj1 (Forall_forall _ _) Hx y Hy). lia.
Qed.

Lemma Object_keys_ascending (pages : PageIndex) :
  StronglySorted Pos.lt (Object_keys pages).
Proof.
  apply StronglySorted_le_lt.
  - apply (StronglySorted_merge_sort Pos.le).
  - unfold Object_keys. rewrite merge_sort_Permutation.
    apply NoDup_elements.
Qed.

Lemma pageOutcome_None pages vars q :
  pageOutcome pages vars q = None ↔
  ∀ bs u, pages !! q = Some bs → u ∈ vars →
          variationMatches bs (pageTextOf bs) u = false.
Proof.
  unfold pageOutcome. destruct (pages !! q) as [boxes|].
  - rewrite tryVariations_None, Forall_forall. split.
    + intros H bs u [= <-]. apply H.
    + intros H u. by apply H.
  - split; [by intros _ bs u ?|done].
Qed.

Lemma findPhrase_Some_iff cfg pages ref config found :
  cfg !! ref = Some config →
  findPhrase cfg pages ref = Some found ↔
  ∃ pagesBefore p pagesAfter boxes varsBefore v varsAfter,
    pagesToSearch config pages = pagesBefore ++ p :: pagesAfter ∧
    (∀ q bs u, q ∈ pagesBefore → pages !! q = Some bs →
               u ∈ PhraseSpec.variations config →
               variationMatches bs (pageTextOf bs) u = false) ∧
    pages !! p = Some boxes ∧
    PhraseSpec.variations config = varsBefore ++ v :: varsAfter ∧
    (∀ u, u ∈ varsBefore →
          variationMatches boxes (pageTextOf boxes) u = false) ∧
    variationMatches boxes (pageTextOf boxes) v = true ∧
    found = resultFor p boxes v.
Proof.
  intros Hcfg. unfold findPhrase. rewrite Hcfg, searchPages_Some. split.
  - intros (pb & p & pa & Hps & Hpb & Hp). unfold pageOutcome in Hp.
    destruct (pages !! p) as [boxes|] eqn:Hboxes; [|done].
    apply tryVariations_Some in Hp as (vb & v & va & Hvs & Hvb & Hv & ->).
    exists pb, p, pa, boxes, vb, v, va. repeat split; try done.
    + intros q bs u Hq Hbs Hu.
      pose proof (proj1 (Forall_forall _ _) Hpb q Hq) as Hq'.
      by apply (proj1 (pageOutcome_None _ _ _) Hq' bs u).
    + by apply Forall_forall.
  - intros (pb & p & pa & boxes & vb & v & va
            & Hps & Hpb & Hboxes & Hvs & Hvb & Hv & ->).
    exists pb, p, pa. repeat split; try done.
    + apply Forall_forall. intros q Hq. apply pageOutcome_None.
      intros bs u. by apply Hpb.
    + unfold pageOutcome. rewrite Hboxes. apply tryVariations_Some.
      exists vb, v, va. repeat split; try done. by apply Forall_forall.
Qed.

(** ** Candidate order and the first match *)

(** C5, amended.  For a configured reference the candidate pages are the
    hinted page alone, or else every key of the page index in strictly
    ascending order; and [findPhrase] returns a result exactly when on
    some candidate page some variation both occurs in the page text and
    resolves to a non-empty run, the result being the one of the first
    such page in candidate order and, on it, of the first such variation
    in listed order.  A variation that occurs in the page text but whose
    run is empty is passed over like one that does not occur. *)
Theorem findPhrase_first_match cfg pages ref config :
  cfg !! ref = Some config →
  pagesToSearch config pages
    = match PhraseSpec.pageHint config with
      | Some hint => [hint]
      | None => Object_keys pages
      end ∧
  StronglySorted Pos.lt (Object_keys pages) ∧
  (∀ p, p ∈ Object_keys pages ↔ is_Some (pages !! p)) ∧
  ∀ found,
    findPhrase cfg pages ref = Some found ↔
    ∃ pagesBefore p pagesAfter boxes varsBefore v varsAfter,
      pagesToSearch config pages = pagesBefore ++ p :: pagesAfter ∧
      (∀ q bs u, q ∈ pagesBefore → pages !! q = Some bs →
                 u ∈ PhraseSpec.variations config →
                 variationMatches bs (pageTextOf bs) u = false) ∧
      pages !! p = Some boxes ∧
      PhraseSpec.variations config = varsBefore ++ v :: varsAfter ∧
      (∀ u, u ∈ varsBefore →
            variationMatches boxes (pageTextOf boxes) u = false) ∧
      variationMatches boxes (pageTextOf boxes) v = true ∧
      found = resultFor p boxes v.
Proof.
  intros Hcfg. split; [done|]. split; [apply Object_keys_ascending|].
  split; [apply Object_keys_elem_of|].
  intros found. by apply findPhrase_Some_iff.
Qed.

(** ** A variation found in the page text but not by the scan *)

(** C3, amended.  When a variation occurs in the page text but its scan
    comes back empty, the remaining variations are tried on the same page,
    in listed order; the search moves to the next candidate page only if
    none of them yields a result. *)
Theorem empty_run_tries_next_variation boxes p v rest :
  indexOf (pageTextOf boxes) (toLowerCase v) ≠ -1 →
  findMatchingTextBoxes boxes (toLowerCase v) = [] →
  tryVariations boxes (pageTextOf boxes) p (v :: rest)
    = tryVariations boxes (pageTextOf boxes) p rest ∧
  ∀ (pages : PageIndex) morePages,
    pages !! p = Some boxes →
    searchPages pages (v :: rest) (p :: morePages)
    = match tryVariations boxes (pageTextOf boxes) p rest with
      | Some found => Some found
      | None => searchPages pages (v :: rest) morePages
      end.
Proof.
  intros _ Hrun.
  assert (tryVariations boxes (pageTextOf boxes) p (v :: rest)
          = tryVariations boxes (pageTextOf boxes) p rest) as Heq.
  { rewrite tryVariations_cons.
    by rewrite (proj2 (variationMatches_false _ _ _) (or_intror Hrun)). }
  split; [done|]. intros pages more Hp.
  rewrite searchPages_cons. unfold pageOutcome. by rewrite Hp, Heq.
Qed.

(** ** Absent results *)

(** C8.  An unconfigured reference gives [null]; a candidate page that is
    not indexed, or indexed with no text boxes, is passed over, so a hint
    to such a page gives [null]; and when every candidate page yields no
    run the result is [null]. *)
Theorem findPhrase_absent cfg pages ref :
  (cfg !! ref = None → findPhrase cfg pages ref = None) ∧
  (∀ vars p rest,
     pages !! p = None ∨ pages !! p = Some [] →
     searchPages pages vars (p :: rest) = searchPages pages vars rest) ∧
  (∀ config hint,
     cfg !! ref = Some config →
     PhraseSpec.pageHint config = Some hint →
     pages !! hint = None ∨ pages !! hint = Some [] →
     findPhrase cfg pages ref = None) ∧
  (∀ config,
     cfg !! ref = Some config →
     (∀ p, p ∈ pagesToSearch config pages →
           yieldsNoRun pages (PhraseSpec.variations config) p) →
     findPhrase cfg pages ref = None).
Proof.
  split; [|split; [|split]].
  - intros Hcfg. unfold findPhrase. by rewrite Hcfg.
  - intros vars p rest [Hp|Hp]; cbn [searchPages]; by rewrite Hp.
  - intros config hint Hcfg Hhint Hp. unfold findPhrase, pagesToSearch.
    rewrite Hcfg, Hhint. cbn [searchPages].
    by destruct Hp as [->| ->].
  - intros config Hcfg Hall. unfold findPhrase. rewrite Hcfg.
    apply searchPages_None, Forall_forall. intros q Hq.
    apply pageOutcome_None. intros bs u Hbs Hu.
    apply variationMatches_false. by apply (Hall q Hq bs u).
Qed.

(** ** Non-negative rectangles *)

Lemma findMatchingTextBoxes_subseteq boxes searchText :
  findMatchingTextBoxes boxes searchText ⊆ boxes.
Proof.
  destruct (findMatchingTextBoxes boxes searchText) as [|b run] eqn:Hrun.
  - apply list_subseteq_nil.
  - destruct (findMatchingTextBoxes_contiguous boxes searchText _ Hrun)
      as (j & i & w & b' & _ & _ & -> & _); [done|].
    etrans; [apply subseteq_take | apply subseteq_drop].
Qed.

Lemma elem_of_map_iff {A B} (f : A → B) (l : list A) y :
  y ∈ map f l ↔ ∃ x, y = f x ∧ x ∈ l.
Proof.
  rewrite list_elem_of_In, in_map_iff. split.
  - intros (x & <- & Hx). exists x. by rewrite list_elem_of_In.
  - intros (x & -> & Hx). exists x. by rewrite <- list_elem_of_In.
Qed.

Lemma boundingRect_nonnegative (run : list TextBox.t) :
  run ≠ [] →
  (∀ b, b ∈ run →
        finiteBox b ∧ num_le num_zero (TextBox.width b) ∧
        num_le num_zero (TextBox.height b)) →
  num_le num_zero (Rect.width (calculateBoundingRect run)) ∧
  num_le num_zero (Rect.height (calculateBoundingRect run)).
Proof.
  intros Hne Hpos.
  assert (Forall numericBox run) as Hnum.
  { apply Forall_forall. intros b Hb. apply finiteBox_numeric.
    by apply Hpos. }
  destruct (boundingRect_extremes run Hne Hnum)
    as (l & t & r & b & -> & [Hl _] & [Ht _] & [_ Hr] & [_ Hb]).
  cbn [Rect.width Rect.height].
  apply elem_of_map_iff in Hl as (bl & -> & Hbl).
  apply elem_of_map_iff in Ht as (bt & -> & Hbt).
  destruct (Hpos bl Hbl) as ((Hfl & _) & Hwl & _).
  destruct (Hpos bt Hbt) as ((_ & Hft & _) & _ & Hht).
  split.
  - apply sub_nonneg; [done|].
    eapply le_trans; [apply (add_nonneg _ _ Hfl Hwl)|].
    apply Hr, elem_of_map_iff. by exists bl.
  - apply sub_nonneg; [done|].
    eapply le_trans; [apply (add_nonneg _ _ Hft Hht)|].
    apply Hb, elem_of_map_iff. by exists bt.
Qed.

(** C10.  When every indexed text box has finite coordinates and
    non-negative width and height, a rectangle returned by [findPhrase]
    has non-negative width and height; and [calculateBoundingRect] of no
    boxes is the zero rectangle. *)
Theorem findPhrase_rect_nonnegative :
  (∀ cfg (pages : PageIndex) ref found,
     (∀ p boxes b, pages !! p = Some boxes → b ∈ boxes →
                   finiteBox b ∧ num_le num_zero (TextBox.width b) ∧
                   num_le num_zero (TextBox.height b)) →
     findPhrase cfg pages ref = Some found →
     num_le num_zero (Rect.width (MatchResult.rect found)) ∧
     num_le num_zero (Rect.height (MatchResult.rect found))) ∧
  calculateBoundingRect [] = Rect.mk num_zero num_zero num_zero num_zero.
Proof.
  split; [|done]. intros cfg pages ref found Hpos Hfound.
  destruct (cfg !! ref) as [config|] eqn:Hcfg;
    [|by unfold findPhrase in Hfound; rewrite Hcfg in Hfound].
  destruct (proj1 (findPhrase_Some_iff _ _ _ _ _ Hcfg) Hfound)
    as (pb & p & pa & boxes & vb & v & va & _ & _ & Hp & _ & _ & Hv & ->).
  apply variationMatches_true in Hv as [_ Hne].
  apply boundingRect_nonnegative; [done|].
  intros b Hb. apply (Hpos p boxes b Hp).
  by apply (findMatchingTextBoxes_subseteq boxes (toLowerCase v)).
Qed.


(** ** Letter case *)

Lemma toLowerCase_nil : toLowerCase [] = [].
Proof. by rewrite lower_basic. Qed.

Lemma pageTextOf_join boxes :
  pageTextOf boxes
  = join (js " ") (map (λ b, toLowerCase (TextBox.str b)) boxes).
Proof.
  unfold pageTextOf. rewrite lower_join, map_map. done.
Qed.

Lemma pageTextOf_sameButCase boxes boxes' :
  Forall2 sameButCase boxes boxes' → pageTextOf boxes = pageTextOf boxes'.
Proof.
  intros H. rewrite !pageTextOf_join. f_equal.
  induction H as [|b b' l l' Hb _ IH]; [done|].
  cbn [map]. f_equal; [apply Hb | done].
Qed.

Lemma length_str_sameButCase boxes boxes' i :
  Forall2 sameButCase boxes boxes' →
  length (TextBox.str (boxes !!! i)) = length (TextBox.str (boxes' !!! i)).
Proof.
  intros H. rewrite !list_lookup_total_alt.
  destruct (proj1 (Forall2_lookup _ _ _) H i) as [b b' Hb|]; [|done].
  apply Hb.
Qed.

Lemma scanFrom_sameButCase boxes boxes' searchText :
  Forall2 sameButCase boxes boxes' →
  ∀ rest rest', Forall2 sameButCase rest rest' →
  ∀ i w w',
    currentText w = currentText w' →
    Forall2 sameButCase (currentBoxes w) (currentBoxes w') →
    Forall2 sameButCase (scanFrom boxes searchText rest i w)
                        (scanFrom boxes' searchText rest' i w').
Proof.
  intros Hboxes rest rest' Hrest.
  induction Hrest as [|b b' rest rest' Hb _ IH]; intros i w w' Ht Hw.
  - constructor.
  - assert (currentText (push b w) = currentText (push b' w')) as Hpt
      by (simpl; by rewrite Ht, (proj1 Hb)).
    assert (Forall2 sameButCase (currentBoxes (push b w))
              (currentBoxes (push b' w'))) as Hpb
      by (apply Forall2_app; [done | by constructor]).
    cbn [scanFrom]. unfold iteration. cbv zeta. rewrite <- Hpt.
    destruct (includes (currentText (push b w)) searchText); [done|].
    apply IH; unfold slide; rewrite <- Hpt,
      <- (length_str_sameButCase boxes boxes' _ Hboxes);
      destruct (length searchText * 3 <? length (currentText (push b w)))%nat;
      cbn [currentText currentBoxes]; try done.
    by apply Forall2_drop.
Qed.

Lemma findMatchingTextBoxes_sameButCase boxes boxes' searchText :
  Forall2 sameButCase boxes boxes' →
  Forall2 sameButCase (findMatchingTextBoxes boxes searchText)
                      (findMatchingTextBoxes boxes' searchText).
Proof.
  intros H. apply scanFrom_sameButCase; [done..|constructor].
Qed.

Lemma calculateBoundingRect_sameButCase run run' :
  Forall2 sameButCase run run' →
  calculateBoundingRect run = calculateBoundingRect run'.
Proof.
  intros H. unfold calculateBoundingRect.
  rewrite (Forall2_length _ _ _ H).
  assert (∀ e, foldl extend e run = foldl extend e run') as ->; [|done].
  induction H as [|b b' l l' (_ & _ & Hl & Ht & Hw & Hh) _ IH]; intros e;
    [done|].
  cbn [foldl]. unfold extend at 2 4. by rewrite Hl, Ht, Hw, Hh, IH.
Qed.

Lemma tryVariations_sameButCase boxes boxes' pageText p vars : ∀ vars',
  Forall2 sameButCase boxes boxes' →
  map toLowerCase vars = map toLowerCase vars' →
  tryVariations boxes pageText p vars = tryVariations boxes' pageText p vars'.
Proof.
  induction vars as [|v vars IH]; intros [|v' vars'] Hboxes Hvars;
    try done.
  injection Hvars as Hv Hvars. cbn [tryVariations]. rewrite <- Hv.
  pose proof (findMatchingTextBoxes_sameButCase _ _ (toLowerCase v) Hboxes)
    as Hrun.
  rewrite <- (Forall2_length _ _ _ Hrun),
    <- (calculateBoundingRect_sameButCase _ _ Hrun), (IH vars') by done.
  done.
Qed.

Lemma searchPages_sameButCase (pages pages' : PageIndex) vars vars' ps :
  (∀ p, option_Forall2 (Forall2 sameButCase) (pages !! p) (pages' !! p)) →
  map toLowerCase vars = map toLowerCase vars' →
  searchPages pages vars ps = searchPages pages' vars' ps.
Proof.
  intros Hpages Hvars. induction ps as [|p ps IH]; [done|].
  cbn [searchPages].
  destruct (Hpages p) as [boxes boxes' Hboxes|]; [|done].
  rewrite <- (Forall2_length _ _ _ Hboxes),
    <- (pageTextOf_sameButCase _ _ Hboxes),
    (tryVariations_sameButCase boxes boxes' _ p vars vars') by done.
  by rewrite IH.
Qed.

Lemma Object_keys_same_dom (pages pages' : PageIndex) :
  (∀ p, is_Some (pages !! p) ↔ is_Some (pages' !! p)) →
  Object_keys pages = Object_keys pages'.
Proof.
  intros H. unfold Object_keys. f_equal. f_equal.
  apply set_eq. intros p. by rewrite !elem_of_dom.
Qed.

(** ** The highlight slot *)

Lemma clearHighlights_spec w :
  currentHighlight (state (clearHighlights w)) = None ∧
  highlights (dom (clearHighlights w)) = [] ∧
  pageContainers (dom (clearHighlights w)) = pageContainers (dom w).
Proof. done. Qed.

Lemma createHighlight_rendered p r w :
  p ∈ pageContainers (dom w) →
  fst (createHighlight p r w) = true ∧
  currentHighlight (state (snd (createHighlight p r w)))
    = Some (Highlight.mk p r) ∧
  highlights (dom (snd (createHighlight p r w))) = [(p, r)] ∧
  pageContainers (dom (snd (createHighlight p r w))) = pageContainers (dom w).
Proof.
  intros Hp. unfold createHighlight.
  rewrite bool_decide_true by done. done.
Qed.

Lemma createHighlight_not_rendered p r w :
  p ∉ pageContainers (dom w) →
  fst (createHighlight p r w) = false ∧
  currentHighlight (state (snd (createHighlight p r w))) = None ∧
  highlights (dom (snd (createHighlight p r w))) = [] ∧
  pageContainers (dom (snd (createHighlight p r w))) = pageContainers (dom w).
Proof.
  intros Hp. unfold createHighlight.
  rewrite bool_decide_false by done. done.
Qed.

Lemma handle_highlights_le ev w :
  (length (highlights (dom (handle ev w))) ≤ 1)%nat ∨
  highlights (dom (handle ev w)) = highlights (dom w).
Proof.
  destruct ev as [| | | n | p | | msg | | p r]; cbn [handle];
    try (by right); try (left; simpl; lia).
  left. destruct (decide (p ∈ pageContainers (dom w))) as [Hp|Hp].
  - destruct (createHighlight_rendered p r w Hp) as (_ & _ & -> & _).
    simpl. lia.
  - destruct (createHighlight_not_rendered p r w Hp) as (_ & _ & -> & _).
    simpl. lia.
Qed.

Lemma run_highlights_le evs : ∀ w,
  (length (highlights (dom w)) ≤ 1)%nat →
  (length (highlights (dom (run evs w))) ≤ 1)%nat.
Proof.
  induction evs as [|ev evs IH]; intros w Hw; [done|].
  cbn [run foldl]. apply IH.
  destruct (handle_highlights_le ev w) as [H|H]; [done | by rewrite H].
Qed.

Lemma createHighlight_loading p r w :
  loading (state (snd (createHighlight p r w))) = loading (state w).
Proof. unfold createHighlight. by destruct (bool_decide _). Qed.


Lemma findPhrase_page_indexed cfg (pages : PageIndex) ref found :
  findPhrase cfg pages ref = Some found →
  is_Some (pages !! MatchResult.page found).
Proof.
  intros Hfound.
  destruct (cfg !! ref) as [config|] eqn:Hcfg;
    [|by unfold findPhrase in Hfound; rewrite Hcfg in Hfound].
  destruct (proj1 (findPhrase_Some_iff _ _ _ _ _ Hcfg) Hfound)
    as (pb & p & pa & boxes & vb & v & va & _ & _ & Hp & _ & _ & _ & ->).
  by eexists.
Qed.

(** ** Building the page index *)

Lemma pushTextBox_insert p box (pages : PageIndex) acc :
  pages !! p = Some acc →
  pushTextBox p box pages = <[p := acc ++ [box]]> pages.
Proof.
  intros Hp. unfold pushTextBox. apply map_eq. intros q.
  destruct (decide (p = q)) as [<-|Hne].
  - by rewrite lookup_alter_eq, lookup_insert_eq, Hp.
  - by rewrite lookup_alter_ne, lookup_insert_ne.
Qed.

Lemma foldl_pushTextBox p items : ∀ (pages : PageIndex) acc,
  pages !! p = Some acc →
  foldl (λ pgs item, pushTextBox p (toTextBox p item) pgs) pages items
  = <[p := acc ++ map (toTextBox p) items]> pages.
Proof.
  induction items as [|item items IH]; intros pages acc Hp.
  - simpl. rewrite app_nil_r. symmetry. by apply insert_id.
  - cbn [foldl map]. rewrite (pushTextBox_insert _ _ _ _ Hp).
    rewrite (IH _ (acc ++ [toTextBox p item])) by apply lookup_insert_eq.
    by rewrite insert_insert_eq, <- app_assoc.
Qed.

Lemma extractTextContent_insert p items (pages : PageIndex) :
  extractTextContent p items pages = <[p := map (toTextBox p) items]> pages.
Proof.
  unfold extractTextContent.
  rewrite (foldl_pushTextBox p items _ []) by apply lookup_insert_eq.
  by rewrite insert_insert_eq.
Qed.

Lemma pageAfter_0 p : pageAfter p 0 = p.
Proof. unfold pageAfter. lia. Qed.

Lemma pageAfter_S p k : pageAfter p (S k) = pageAfter (Pos.succ p) k.
Proof. unfold pageAfter. lia. Qed.

Lemma pageAfter_1 k : pageAfter 1 k = Pos.of_succ_nat k.
Proof. unfold pageAfter. lia. Qed.

(** The loop over pages that all render. *)
Lemma renderPagesFrom_spec doc : ∀ p sess,
  let rendered := renderPagesFrom p (map PageRenders doc) sess in
  snd rendered = None ∧
  pageContainers (dom (world (fst rendered)))
    = pageContainers (dom (world sess))
      ++ map (pageAfter p) (seq 0 (length doc)) ∧
  (∀ k items, doc !! k = Some items →
     pageTextBoxes (fst rendered) !! pageAfter p k
     = Some (map (toTextBox (pageAfter p k)) items)) ∧
  (∀ q, (∀ k, (k < length doc)%nat → q ≠ pageAfter p k) →
     pageTextBoxes (fst rendered) !! q = pageTextBoxes sess !! q) ∧
  state (world (fst rendered)) = state (world sess) ∧
  highlights (dom (world (fst rendered))) = highlights (dom (world sess)).
Proof.
  induction doc as [|items doc IH]; intros p sess.
  - simpl. rewrite app_nil_r. repeat split; done.
  - cbn [map renderPagesFrom].
    destruct (IH (Pos.succ p) (renderPage p items sess))
      as (Hnone & Hc & Hin & Hout & Hst & Hh).
    cbv zeta. split; [done|]. split; [|split; [|split; [|split]]].
    + rewrite Hc. simpl. rewrite <- app_assoc. f_equal. simpl.
      rewrite pageAfter_0. f_equal.
      rewrite <- seq_shift, map_map. apply map_ext. intros k.
      symmetry. apply pageAfter_S.
    + intros [|k] its Hk.
      * injection Hk as ->. rewrite pageAfter_0.
        rewrite Hout.
        -- simpl. rewrite extractTextContent_insert. apply lookup_insert_eq.
        -- intros k _. unfold pageAfter. lia.
      * rewrite pageAfter_S. by apply Hin.
    + intros q Hq. rewrite Hout.
      * simpl. rewrite extractTextContent_insert. apply lookup_insert_ne.
        specialize (Hq O ltac:(simpl; lia)). by rewrite pageAfter_0 in Hq.
      * intros k Hk. rewrite <- pageAfter_S. apply Hq. simpl. lia.
    + by rewrite Hst.
    + by rewrite Hh.
Qed.

(** The loop on a document whose first pages render. *)
Lemma renderPagesFrom_app before rest : ∀ p sess,
  renderPagesFrom p (map PageRenders before ++ rest) sess
  = renderPagesFrom (pageAfter p (length before)) rest
      (fst (renderPagesFrom p (map PageRenders before) sess)).
Proof.
  induction before as [|items before IH]; intros p sess.
  - simpl. by rewrite pageAfter_0.
  - cbn [map app renderPagesFrom length]. rewrite IH, pageAfter_S. done.
Qed.

(** The loop writes neither the component state nor the highlights. *)
Lemma renderPagesFrom_state doc : ∀ p sess,
  state (world (fst (renderPagesFrom p doc sess))) = state (world sess) ∧
  highlights (dom (world (fst (renderPagesFrom p doc sess))))
    = highlights (dom (world sess)).
Proof.
  induction doc as [|src doc IH]; intros p sess; [done|].
  destruct src as [items|message|message|message]; cbn [renderPagesFrom];
    [|done..].
  destruct (IH (Pos.succ p) (renderPage p items sess)) as [-> ->]. done.
Qed.

(** Whatever the loop indexes it has put in the viewer first. *)
Lemma renderPagesFrom_coherent doc : ∀ p sess,
  coherent sess → coherent (fst (renderPagesFrom p doc sess)).
Proof.
  induction doc as [|src doc IH]; intros p sess [Hidx Hslot]; [done|].
  destruct src as [items|message|message|message]; cbn [renderPagesFrom].
  - apply IH. split.
    + intros q Hq. simpl in *.
      rewrite extractTextContent_insert in Hq. apply elem_of_app.
      destruct (decide (p = q)) as [<-|Hne].
      * right. apply list_elem_of_here.
      * left. rewrite lookup_insert_ne in Hq by done. by apply Hidx.
    + done.
  - done.
  - split; [|done]. intros q Hq. simpl in *. apply elem_of_app. left.
    by apply Hidx.
  - split; [|done]. intros q Hq. simpl in *. apply elem_of_app. left.
    by apply Hidx.
Qed.

Lemma documentLoaded_coherent numPages start :
  pristine start → coherent (documentLoaded numPages start).
Proof.
  intros (Hidx & Hdom & Hcur). split.
  - intros q [x Hq]. simpl in Hq. by rewrite Hidx, lookup_empty in Hq.
  - unfold slotShown. simpl. by rewrite Hcur.
Qed.

Lemma pristine_coherent start : pristine start → coherent start.
Proof.
  intros (Hidx & Hdom & Hcur). split.
  - intros q [x Hq]. by rewrite Hidx, lookup_empty in Hq.
  - unfold slotShown. by rewrite Hdom, Hcur.
Qed.

Lemma loadAndRenderPDF_coherent outcome start :
  pristine start → coherent (loadAndRenderPDF outcome start).
Proof.
  intros Hstart. pose proof (pristine_coherent _ Hstart) as [Hidx Hslot].
  destruct outcome as [|message|doc]; unfold loadAndRenderPDF.
  - done.
  - done.
  - pose proof (renderPagesFrom_coherent doc 1 _
                  (documentLoaded_coherent (length doc) start Hstart))
      as [Hidx' Hslot'].
    unfold renderPDFPages.
    destruct (snd (renderPagesFrom 1 doc (documentLoaded (length doc) start)));
      done.
Qed.


Lemma act_coherent cfg sess a :
  coherent sess → coherent (act cfg sess a).
Proof.
  intros [Hidx Hslot]. destruct a as [n|]; cbn [act].
  - unfold handleReferenceClick.
    destruct (loading (state (world sess))); [done|].
    destruct (findPhrase cfg (pageTextBoxes sess) n) as [found|] eqn:Hfind;
      [|done].
    pose proof (Hidx _ (findPhrase_page_indexed _ _ _ _ Hfind)) as Hin.
    destruct (createHighlight_rendered (MatchResult.page found)
                (MatchResult.rect found) (world sess) Hin)
      as (_ & Hcur & Hhl & Hc).
    cbn [snd]. split.
    + intros q Hq. cbn [world pageTextBoxes] in *. rewrite Hc. by apply Hidx.
    + unfold slotShown. cbn [world]. by rewrite Hcur, Hhl.
  - destruct (currentHighlight (state (world sess))) eqn:Hcur; [|done].
    done.
Qed.

Lemma reachable_coherent cfg sess : reachable cfg sess → coherent sess.
Proof.
  induction 1 as [start Hs|start Hs|start n doc Hs|start outcome Hs
                  |sess a _ IH].
  - by apply pristine_coherent.
  - by apply pristine_coherent in Hs as [? ?].
  - apply renderPagesFrom_coherent. by apply documentLoaded_coherent.
  - by apply loadAndRenderPDF_coherent.
  - by apply act_coherent.
Qed.

Lemma slotShown_length w :
  slotShown w → (length (highlights (dom w)) ≤ 1)%nat.
Proof.
  unfold slotShown. intros ->.
  destruct (currentHighlight (state w)); simpl; lia.
Qed.

(** C9.  The highlight slot holds at most one highlight at all times:
    after any sequence of the events that write the state or the viewer
    there is at most one highlight element, and on every session the
    component passes through the elements are exactly what the slot says.
    [clearHighlights] empties the slot.  On such a session
    [createHighlight] for indexed pages, the only pages it is called for,
    returns [true] and replaces what was there, so that two calls in a
    row leave exactly the second highlight, and likewise two clicks in a
    row on references that are found.  No other event changes the
    slot. *)
Theorem highlight_single_slot cfg :
  (∀ evs, (length (highlights (dom (run evs initialWorld))) ≤ 1)%nat) ∧
  (∀ sess,
     reachable cfg sess →
     slotShown (world sess) ∧
     (length (highlights (dom (world sess))) ≤ 1)%nat) ∧
  (∀ w,
     currentHighlight (state (clearHighlights w)) = None ∧
     highlights (dom (clearHighlights w)) = []) ∧
  (∀ sess p1 r1 p2 r2,
     reachable cfg sess →
     is_Some (pageTextBoxes sess !! p1) →
     is_Some (pageTextBoxes sess !! p2) →
     let first := createHighlight p1 r1 (world sess) in
     let second := createHighlight p2 r2 (snd first) in
     fst first = true ∧
     currentHighlight (state (snd first)) = Some (Highlight.mk p1 r1) ∧
     fst second = true ∧
     currentHighlight (state (snd second)) = Some (Highlight.mk p2 r2) ∧
     highlights (dom (snd second)) = [(p2, r2)]) ∧
  (∀ sess ref1 ref2 found,
     reachable cfg sess →
     loading (state (world sess)) = false →
     findPhrase cfg (pageTextBoxes sess) ref2 = Some found →
     let clicked :=
       handleReferenceClick cfg ref2
         (snd (handleReferenceClick cfg ref1 sess)) in
     fst clicked = None ∧
     currentHighlight (state (world (snd clicked)))
       = Some (Highlight.mk (MatchResult.page found)
                            (MatchResult.rect found)) ∧
     highlights (dom (world (snd clicked)))
       = [(MatchResult.page found, MatchResult.rect found)]) ∧
  (∀ ev w,
     isHighlightEvent ev = false →
     currentHighlight (state (handle ev w)) = currentHighlight (state w)).
Proof.
  split; [|split; [|split; [|split; [|split]]]].
  - intros evs. apply run_highlights_le. simpl. lia.
  - intros sess Hr. destruct (reachable_coherent _ _ Hr) as [_ Hslot].
    split; [done | by apply slotShown_length].
  - intros w. by destruct (clearHighlights_spec w) as (? & ? & _).
  - intros sess p1 r1 p2 r2 Hr H1 H2.
    destruct (reachable_coherent _ _ Hr) as [Hidx _].
    destruct (createHighlight_rendered p1 r1 (world sess) (Hidx _ H1))
      as (Hf1 & Hc1 & _ & Hcs).
    assert (p2 ∈ pageContainers
                   (dom (snd (createHighlight p1 r1 (world sess))))) as Hin
      by (rewrite Hcs; by apply Hidx).
    destruct (createHighlight_rendered p2 r2 _ Hin) as (Hf2 & Hc2 & Hh2 & _).
    done.
  - intros sess ref1 ref2 found Hr Hl Hfind.
    pose proof (act_coherent cfg sess (ClickReference ref1)
                  (reachable_coherent _ _ Hr)) as [Hidx' _].
    cbn [act] in Hidx'.
    assert (pageTextBoxes (snd (handleReferenceClick cfg ref1 sess))
            = pageTextBoxes sess ∧
            loading (state (world (snd (handleReferenceClick cfg ref1 sess))))
            = false) as [Hp' Hl'].
    { unfold handleReferenceClick. rewrite Hl.
      destruct (findPhrase cfg (pageTextBoxes sess) ref1); [|done].
      cbn [snd world pageTextBoxes]. by rewrite createHighlight_loading. }
    set (sess1 := snd (handleReferenceClick cfg ref1 sess)) in *.
    assert (MatchResult.page found ∈ pageContainers (dom (world sess1)))
      as Hin.
    { apply Hidx'. rewrite Hp'. by eapply findPhrase_page_indexed. }
    destruct (createHighlight_rendered (MatchResult.page found)
                (MatchResult.rect found) (world sess1) Hin)
      as (Hfst & Hcur & Hhl & _).
    cbv zeta. unfold handleReferenceClick at 1 2 3.
    rewrite Hl', Hp', Hfind. cbn [fst snd world]. by rewrite Hfst.
  - intros ev w Hev. by destruct ev.
Qed.


(** ** What the scan finds and what it cannot miss *)

Lemma runText_app l1 l2 : runText (l1 ++ l2) = runText l1 ++ runText l2.
Proof. unfold runText. by rewrite map_app, concat_app. Qed.

Lemma length_runText l : length (runText l) = loweredLength l.
Proof.
  unfold runText, loweredLength. induction l as [|b l IH]; [done|].
  simpl. by rewrite length_app, IH.
Qed.

Lemma loweredLength_take_le k l :
  (loweredLength (take k l) ≤ loweredLength l)%nat.
Proof.
  rewrite <- (take_drop k l) at 2. unfold loweredLength.
  rewrite sum_list_with_app. lia.
Qed.

Lemma runText_take_S boxes i b :
  boxes !! i = Some b →
  runText (take (S i) boxes) = runText (take i boxes) ++ toLowerCase (TextBox.str b).
Proof.
  intros Hb. rewrite (take_S_r _ _ _ Hb), runText_app. unfold runText. simpl.
  by rewrite app_nil_r.
Qed.

(** The buffer is always the tail end of the texts read so far. *)
Lemma windowAt_suffix boxes searchText k w :
  windowAt boxes searchText k = Some w →
  ∃ pre, runText (take k boxes) = pre ++ currentText w.
Proof.
  revert k w.
  apply (windowAt_invariant boxes searchText
           (λ k w, ∃ pre, runText (take k boxes) = pre ++ currentText w)).
  - by exists [].
  - intros i b w Hb [pre Hpre] _.
    assert (runText (take (S i) boxes) = pre ++ currentText (push b w)) as Hp.
    { rewrite (runText_take_S _ _ _ Hb), Hpre. simpl. by rewrite app_assoc. }
    unfold slide.
    destruct (length searchText * 3 <? length (currentText (push b w)))%nat;
      [|by exists pre].
    cbn [currentText]. unfold substring.
    set (n := length (TextBox.str (boxes !!! trimIndex i))).
    exists (pre ++ take n (currentText (push b w))).
    by rewrite <- app_assoc, take_drop.
Qed.

(** The scan answers as soon as one box holds the search text by itself. *)
Lemma scanFrom_hit boxes searchText : ∀ rest i w k b,
  rest !! k = Some b →
  includes (toLowerCase (TextBox.str b)) searchText = true →
  scanFrom boxes searchText rest i w ≠ [].
Proof.
  induction rest as [|b0 rest IH]; intros i w k b Hk Hinc; [done|].
  cbn [scanFrom]. unfold iteration.
  destruct (includes (currentText (push b0 w)) searchText) eqn:Hpush.
  - simpl. by destruct (currentBoxes w).
  - destruct k as [|k].
    + injection Hk as ->. simpl in Hpush.
      pose proof (includes_app (currentText w) _ [] _ Hinc) as H.
      rewrite app_nil_r in H. congruence.
    + by apply (IH _ _ k b).
Qed.

Lemma findMatchingTextBoxes_last boxes searchText :
  findMatchingTextBoxes boxes searchText ≠ [] →
  ∃ i w b,
    windowAt boxes searchText i = Some w ∧ boxes !! i = Some b ∧
    includes (currentText (push b w)) searchText = true ∧
    findMatchingTextBoxes boxes searchText = currentBoxes w ++ [b].
Proof.
  intros Hne.
  destruct (scanFrom_nonempty boxes searchText _ _ _ _ eq_refl Hne)
    as (i & w & b & Hw & Hb & Hinc & Hrun).
  by exists i, w, b.
Qed.

(** X1.  A non-empty run ends with the box at which the scan stopped, and
    the search text then occurs in the concatenated lowercased texts of the
    boxes up to that one, hence of the page. *)
Theorem findMatchingTextBoxes_sound boxes searchText :
  findMatchingTextBoxes boxes searchText ≠ [] →
  ∃ i b,
    boxes !! i = Some b ∧
    last (findMatchingTextBoxes boxes searchText) = Some b ∧
    includes (runText (take (S i) boxes)) searchText = true ∧
    includes (runText boxes) searchText = true.
Proof.
  intros Hne.
  destruct (findMatchingTextBoxes_last _ _ Hne)
    as (i & w & b & Hw & Hb & Hinc & ->).
  exists i, b. split; [done|]. split; [by rewrite last_snoc|].
  destruct (windowAt_suffix _ _ _ _ Hw) as [pre Hpre].
  assert (includes (runText (take (S i) boxes)) searchText = true) as Hi.
  { rewrite (runText_take_S _ _ _ Hb), Hpre, <- app_assoc.
    pose proof (includes_app pre _ [] _ Hinc) as H.
    by rewrite app_nil_r in H. }
  split; [done|].
  rewrite <- (take_drop (S i) boxes), runText_app.
  by apply (includes_app []).
Qed.

(** X2.  When one box holds the search text by itself, the run is not
    empty and ends at that box or at an earlier one. *)
Theorem findMatchingTextBoxes_single_fragment boxes searchText k b :
  boxes !! k = Some b →
  includes (toLowerCase (TextBox.str b)) searchText = true →
  ∃ i bi,
    (i ≤ k)%nat ∧ boxes !! i = Some bi ∧
    last (findMatchingTextBoxes boxes searchText) = Some bi.
Proof.
  intros Hk Hinc.
  pose proof (scanFrom_hit boxes searchText boxes O emptyWindow k b Hk Hinc)
    as Hne.
  destruct (findMatchingTextBoxes_last _ _ Hne)
    as (i & w & bi & Hw & Hbi & Hi & Hrun).
  exists i, bi. split; [|split; [done|]].
  - destruct (Nat.le_gt_cases i k) as [|Hlt]; [done|].
    destruct (windowFrom_earlier _ _ _ _ _ _ _ Hw k b Hlt Hk)
      as (w' & _ & Hno).
    simpl in Hno.
    pose proof (includes_app (currentText w') _ [] _ Hinc) as H.
    rewrite app_nil_r in H. congruence.
  - unfold findMatchingTextBoxes in *. by rewrite Hrun, last_snoc.
Qed.

Lemma pageTextOf_contains boxes b :
  b ∈ boxes →
  ∃ pre post, pageTextOf boxes = pre ++ toLowerCase (TextBox.str b) ++ post.
Proof.
  intros Hb. rewrite pageTextOf_join. apply join_elem_of.
  apply list_elem_of_In, in_map_iff. exists b. split; [done|].
  by apply list_elem_of_In.
Qed.

Lemma variationMatches_single_fragment boxes b v :
  b ∈ boxes →
  includes (toLowerCase (TextBox.str b)) (toLowerCase v) = true →
  variationMatches boxes (pageTextOf boxes) v = true.
Proof.
  intros Hb Hinc. apply variationMatches_true. split.
  - apply indexOf_found, includes_true.
    destruct (pageTextOf_contains boxes b Hb) as (pre & post & ->).
    by apply includes_app.
  - apply list_elem_of_lookup in Hb as [k Hk].
    by apply (scanFrom_hit boxes _ boxes O emptyWindow k b).
Qed.

(** X3.  A configured variation that lies within a single text box of a
    candidate page is never missed: [findPhrase] returns a result. *)
Theorem findPhrase_finds_single_fragment cfg (pages : PageIndex) ref config
    p boxes b v :
  cfg !! ref = Some config →
  p ∈ pagesToSearch config pages →
  pages !! p = Some boxes →
  b ∈ boxes →
  v ∈ PhraseSpec.variations config →
  includes (toLowerCase (TextBox.str b)) (toLowerCase v) = true →
  is_Some (findPhrase cfg pages ref).
Proof.
  intros Hcfg Hp Hboxes Hb Hv Hinc.
  destruct (findPhrase cfg pages ref) as [found|] eqn:Hfind; [by eexists|].
  exfalso. unfold findPhrase in Hfind. rewrite Hcfg in Hfind.
  apply searchPages_None in Hfind.
  pose proof (proj1 (Forall_forall _ _) Hfind p Hp) as Hout.
  pose proof (proj1 (pageOutcome_None _ _ _) Hout boxes v Hboxes Hv) as Hno.
  rewrite (variationMatches_single_fragment boxes b v Hb Hinc) in Hno. done.
Qed.
(** On a page whose lowercased texts are together no longer than three
    times the search text nothing is ever trimmed: buffer and window are
    the texts and the boxes read so far. *)
Lemma windowAt_short boxes searchText k w :
  (loweredLength boxes ≤ 3 * length searchText)%nat →
  windowAt boxes searchText k = Some w →
  currentText w = runText (take k boxes) ∧ currentBoxes w = take k boxes.
Proof.
  intros Hshort. revert k w.
  apply (windowAt_invariant boxes searchText
           (λ k w, currentText w = runText (take k boxes) ∧
                   currentBoxes w = take k boxes)).
  - done.
  - intros i b w Hb [Ht Hl] _.
    assert (currentText (push b w) = runText (take (S i) boxes) ∧
            currentBoxes (push b w) = take (S i) boxes) as [Ht' Hl'].
    { simpl. by rewrite (runText_take_S _ _ _ Hb), (take_S_r _ _ _ Hb), Ht, Hl. }
    unfold slide.
    destruct (Nat.ltb_spec (length searchText * 3)
                (length (currentText (push b w)))) as [Hlt|_]; [|done].
    rewrite Ht', length_runText in Hlt.
    pose proof (loweredLength_take_le (S i) boxes). lia.
Qed.

Lemma scanFrom_empty_reaches boxes searchText : ∀ rest i w k,
  scanFrom boxes searchText rest i w = [] →
  (k ≤ length rest)%nat →
  is_Some (windowFrom boxes searchText rest i w k).
Proof.
  induction rest as [|b rest IH]; intros i w k Hrun Hk.
  - simpl in Hk. assert (k = O) as -> by lia. by eexists.
  - destruct k as [|k]; [by eexists|].
    cbn [scanFrom] in Hrun. cbn [windowFrom]. unfold iteration in *.
    destruct (includes (currentText (push b w)) searchText).
    + exfalso. revert Hrun. simpl. by destruct (currentBoxes w).
    + apply IH; [done|]. simpl in Hk. lia.
Qed.

(** X4.  On a page whose lowercased texts are together no longer than
    three times the search text, the run is the shortest non-empty prefix
    of the page whose concatenated lowercased text contains the search
    text, and it is empty exactly when no prefix does. *)
Theorem findMatchingTextBoxes_short_page boxes searchText :
  (loweredLength boxes ≤ 3 * length searchText)%nat →
  (findMatchingTextBoxes boxes searchText = [] ∧
   ∀ k, (1 ≤ k ≤ length boxes)%nat →
        includes (runText (take k boxes)) searchText = false) ∨
  (∃ i, (i < length boxes)%nat ∧
        findMatchingTextBoxes boxes searchText = take (S i) boxes ∧
        includes (runText (take (S i) boxes)) searchText = true ∧
        ∀ k, (1 ≤ k ≤ i)%nat →
             includes (runText (take k boxes)) searchText = false).
Proof.
  intros Hshort.
  destruct (findMatchingTextBoxes boxes searchText) as [|b0 run] eqn:Hrun.
  - left. split; [done|]. intros [|k] Hk; [lia|].
    destruct (lookup_lt_is_Some_2 boxes k ltac:(lia)) as [b Hb].
    destruct (scanFrom_empty_reaches boxes searchText boxes O emptyWindow k
                Hrun ltac:(lia)) as [w Hw].
    pose proof (proj1 (scanFrom_empty boxes searchText boxes O emptyWindow)
                  Hrun k w b Hw Hb) as Hno.
    destruct (windowAt_short _ _ _ _ Hshort Hw) as [Ht _].
    simpl in Hno. by rewrite (runText_take_S _ _ _ Hb), <- Ht.
  - right.
    destruct (findMatchingTextBoxes_last boxes searchText)
      as (i & w & b & Hw & Hb & Hinc & Heq); [by rewrite Hrun|].
    destruct (windowAt_short _ _ _ _ Hshort Hw) as [Ht Hl].
    exists i. split; [by apply lookup_lt_Some in Hb|].
    split; [by rewrite <- Hrun, Heq, Hl, (take_S_r _ _ _ Hb)|].
    split.
    { simpl in Hinc. by rewrite (runText_take_S _ _ _ Hb), <- Ht. }
    intros [|k] Hk; [lia|].
    destruct (lookup_lt_is_Some_2 boxes k) as [b' Hb'].
    { apply lookup_lt_Some in Hb. lia. }
    destruct (windowFrom_earlier _ _ _ _ _ _ _ Hw k b' ltac:(lia) Hb')
      as (w' & Hw' & Hno).
    destruct (windowAt_short _ _ _ _ Hshort Hw') as [Ht' _].
    simpl in Hno. by rewrite (runText_take_S _ _ _ Hb'), <- Ht'.
Qed.

(** X5.  An empty search text is found at once: the run is the first box
    alone, so an empty variation listed first makes [findPhrase] answer,
    on a page with text boxes, with the rectangle the code computes from
    the page's first box: its left and top, and its right and bottom
    edges minus these. *)
Theorem empty_variation_matches_first_box b boxes pageText p rest :
  findMatchingTextBoxes (b :: boxes) [] = [b] ∧
  tryVariations (b :: boxes) pageText p ([] :: rest)
    = Some (MatchResult.mk p
              (Rect.mk (TextBox.left b) (TextBox.top b)
                       (num_sub (rightOf b) (TextBox.left b))
                       (num_sub (bottomOf b) (TextBox.top b)))).
Proof.
  assert (findMatchingTextBoxes (b :: boxes) [] = [b]) as Hrun.
  { unfold findMatchingTextBoxes. cbn [scanFrom]. unfold iteration.
    by rewrite includes_nil. }
  split; [done|].
  rewrite tryVariations_cons.
  rewrite (proj2 (variationMatches_true _ _ _)).
  - unfold resultFor. rewrite toLowerCase_nil, Hrun.
    by rewrite calculateBoundingRect_cons.
  - rewrite toLowerCase_nil, Hrun. split; [|done].
    apply indexOf_found. by exists [], pageText.
Qed.

(** ** More on letter case and on the bounding rectangle *)

(** X18.  The page text is the lowercased texts of the page's boxes, in
    stored order, joined by single spaces; a variation passes the check
    of line 270 exactly when its lowercased form occurs in the page text
    as a contiguous substring, nothing else being normalised; and a
    variation that does not pass is skipped. *)
Theorem coarse_check_exact_substring :
  (∀ boxes,
     pageTextOf boxes
     = join (js " ") (map (λ b, toLowerCase (TextBox.str b)) boxes)) ∧
  (∀ boxes v,
     occursIn (pageTextOf boxes) v = true ↔
     ∃ pre post, pageTextOf boxes = pre ++ toLowerCase v ++ post) ∧
  (∀ boxes p v rest,
     occursIn (pageTextOf boxes) v = false →
     tryVariations boxes (pageTextOf boxes) p (v :: rest)
     = tryVariations boxes (pageTextOf boxes) p rest).
Proof.
  split; [apply pageTextOf_join|]. split.
  - intros boxes v. unfold occursIn.
    rewrite negb_true_iff, Z.eqb_neq. apply indexOf_found.
  - intros boxes p v rest Hno. rewrite tryVariations_cons.
    unfold variationMatches. fold (occursIn (pageTextOf boxes) v).
    by rewrite Hno.
Qed.

(** X6.  Where lowercasing keeps the length of every text, the search
    does not depend on letter case: two configurations whose variations
    agree once lowercased, and two indexes whose boxes differ at most in
    the letter case of texts of equal length, give the same result. *)
Theorem findPhrase_same_but_case cfg cfg' (pages pages' : PageIndex) ref :
  option_Forall2 sameSpecButCase (cfg !! ref) (cfg' !! ref) →
  (∀ p, option_Forall2 (Forall2 sameButCase) (pages !! p) (pages' !! p)) →
  findPhrase cfg pages ref = findPhrase cfg' pages' ref.
Proof.
  intros Hcfg Hpages. unfold findPhrase.
  destruct Hcfg as [c c' [Hvars Hhint]|]; [|done].
  assert (pagesToSearch c pages = pagesToSearch c' pages') as ->.
  { unfold pagesToSearch. rewrite Hhint.
    destruct (PhraseSpec.pageHint c'); [done|].
    apply Object_keys_same_dom. intros q.
    destruct (Hpages q); split; intros [? ?]; (done || by eexists). }
  by apply searchPages_sameButCase.
Qed.

Lemma foldl_Permutation {A} (f : A → A → A) (l l' : list A) :
  (∀ x y, f x y = f y x) → (∀ x y z, f (f x y) z = f x (f y z)) →
  l ≡ₚ l' → ∀ a, foldl f a l = foldl f a l'.
Proof.
  intros Hcomm Hassoc.
  induction 1 as [|x l l' _ IH|x y l|l l' l'' _ IH1 _ IH2]; intros a.
  - done.
  - cbn [foldl]. apply IH.
  - cbn [foldl]. f_equal. by rewrite !Hassoc, (Hcomm y x).
  - by rewrite IH1.
Qed.

(** X7.  The rectangle depends on which boxes are in the run, not on
    their order. *)
Theorem calculateBoundingRect_permutation (run run' : list TextBox.t) :
  run ≡ₚ run' → calculateBoundingRect run = calculateBoundingRect run'.
Proof.
  intros Hperm. unfold calculateBoundingRect.
  rewrite (Permutation_length Hperm).
  destruct (length run' =? 0)%nat; [done|].
  rewrite !foldl_extend. cbn [minLeft minTop maxRight maxBottom].
  assert (∀ f : TextBox.t → number, map f run ≡ₚ map f run') as Hmap
    by (intros f; by apply Permutation_map).
  rewrite (foldl_Permutation Math_min _ _ min_comm min_assoc
             (Hmap TextBox.left)),
    (foldl_Permutation Math_min _ _ min_comm min_assoc (Hmap TextBox.top)),
    (foldl_Permutation Math_max _ _ max_comm max_assoc (Hmap rightOf)),
    (foldl_Permutation Math_max _ _ max_comm max_assoc (Hmap bottomOf)).
  done.
Qed.

(** ** Which page the search answers with *)

Lemma tryVariations_page boxes pageText p vars found :
  tryVariations boxes pageText p vars = Some found →
  MatchResult.page found = p.
Proof.
  intros (vb & v & va & _ & _ & _ & ->)%tryVariations_Some. done.
Qed.

(** X8.  With a page hint the search reads the hinted page only: the
    result is the same for any two indexes with the same entry for that
    page, whatever else they hold, and a result is on the hinted page. *)
Theorem findPhrase_hint_only cfg (pages pages' : PageIndex) ref config hint :
  cfg !! ref = Some config →
  PhraseSpec.pageHint config = Some hint →
  (pages !! hint = pages' !! hint →
   findPhrase cfg pages ref = findPhrase cfg pages' ref) ∧
  (∀ found, findPhrase cfg pages ref = Some found →
            MatchResult.page found = hint).
Proof.
  intros Hcfg Hhint. unfold findPhrase, pagesToSearch.
  rewrite Hcfg, Hhint. cbn [searchPages]. split.
  - by intros ->.
  - intros found. destruct (pages !! hint) as [boxes|]; [|done].
    destruct (length boxes =? 0)%nat; [done|].
    destruct (tryVariations boxes (pageTextOf boxes) hint
                (PhraseSpec.variations config)) as [r|] eqn:Htry; [|done].
    intros [= <-]. by apply tryVariations_page in Htry.
Qed.
(** X9.  Without a page hint a result is on an indexed page, and on no
    indexed page with a smaller number does any listed variation match. *)
Theorem findPhrase_least_page cfg (pages : PageIndex) ref config found :
  cfg !! ref = Some config →
  PhraseSpec.pageHint config = None →
  findPhrase cfg pages ref = Some found →
  is_Some (pages !! MatchResult.page found) ∧
  ∀ q bs u,
    (q < MatchResult.page found)%positive →
    pages !! q = Some bs →
    u ∈ PhraseSpec.variations config →
    variationMatches bs (pageTextOf bs) u = false.
Proof.
  intros Hcfg Hhint Hfound.
  destruct (proj1 (findPhrase_Some_iff _ _ _ _ _ Hcfg) Hfound)
    as (pb & p & pa & boxes & vb & v & va
        & Hps & Hpb & Hp & _ & _ & _ & ->).
  simpl. split; [by eexists|].
  intros q bs u Hlt Hq Hu. apply (Hpb q bs u); [|done..].
  unfold pagesToSearch in Hps. rewrite Hhint in Hps.
  assert (q ∈ Object_keys pages) as Hin
    by (apply Object_keys_elem_of; by eexists).
  pose proof (Object_keys_ascending pages) as Hsorted.
  rewrite Hps in Hin, Hsorted.
  apply elem_of_app in Hin as [Hin|Hin]; [done|]. exfalso.
  apply StronglySorted_app_1_r, StronglySorted_cons in Hsorted as [Hall _].
  apply elem_of_cons in Hin as [->|Hin]; [lia|].
  pose proof (proj1 (Forall_forall _ _) Hall q Hin). lia.
Qed.

(** ** Building the page index *)

(** X10.  Extracting a page leaves in the index, under that page number,
    one box per text item in item order, replacing what was there, so
    that extracting the page again does not append; the entries of the
    other pages are left alone. *)
Theorem extractTextContent_replaces p items (pages : PageIndex) :
  extractTextContent p items pages !! p = Some (map (toTextBox p) items) ∧
  (∀ q, q ≠ p → extractTextContent p items pages !! q = pages !! q) ∧
  (∀ items',
     extractTextContent p items' (extractTextContent p items pages)
     = extractTextContent p items' pages).
Proof.
  rewrite !extractTextContent_insert. split; [apply lookup_insert_eq|].
  split.
  - intros q Hq. by apply lookup_insert_ne.
  - intros items'. rewrite !extractTextContent_insert.
    apply insert_insert_eq.
Qed.

(** X11.  Rendering a document whose pages all render appends the
    containers of pages 1 to n to the viewer in that order and leaves in
    the index, for each page, one box per text item of that page; entries
    of page numbers above n, the component state and the highlight
    elements are left alone, and nothing is thrown. *)
Theorem renderPDFPages_index doc sess :
  let rendered := renderPDFPages (map PageRenders doc) sess in
  let sess' := fst rendered in
  snd rendered = None ∧
  pageContainers (dom (world sess'))
    = pageContainers (dom (world sess))
      ++ map Pos.of_succ_nat (seq 0 (length doc)) ∧
  (∀ k items, doc !! k = Some items →
     pageTextBoxes sess' !! Pos.of_succ_nat k
     = Some (map (toTextBox (Pos.of_succ_nat k)) items)) ∧
  (∀ q, (length doc < Pos.to_nat q)%nat →
     pageTextBoxes sess' !! q = pageTextBoxes sess !! q) ∧
  state (world sess') = state (world sess) ∧
  highlights (dom (world sess')) = highlights (dom (world sess)).
Proof.
  destruct (renderPagesFrom_spec doc 1 sess)
    as (Hnone & Hc & Hin & Hout & Hst & Hh).
  cbv zeta. unfold renderPDFPages.
  split; [done|]. split; [|split; [|split; [|split]]].
  - rewrite Hc. f_equal. apply map_ext. intros k. apply pageAfter_1.
  - intros k items Hk. rewrite <- pageAfter_1. by apply Hin.
  - intros q Hq. apply Hout. intros k Hk. unfold pageAfter. lia.
  - done.
  - done.
Qed.

(** X12.  A load whose pages all render ends with [loading] off, no
    error, the page count recorded, the viewer holding exactly the
    containers of pages 1 to n and no highlight element, and the index
    filled for these pages.  A load in which [getPage], [render] or
    [getTextContent] rejects on some page ends in the [catch] block:
    [loading] off, the cause in [error], the page count still recorded,
    the index filled for the pages before that one only, and the viewer
    holding their containers, and that of the failing page unless it was
    [getPage] that rejected.  A load that gets no document ends with
    [loading] off and the cause in [error], and touches neither the index
    nor the viewer. *)
Theorem loadAndRenderPDF_outcomes sess :
  (∀ doc,
     let sess' := loadAndRenderPDF (DocumentReady (map PageRenders doc)) sess in
     loading (state (world sess')) = false ∧
     error (state (world sess')) = None ∧
     pdfDoc (state (world sess')) = Some (length doc) ∧
     pageContainers (dom (world sess'))
       = map Pos.of_succ_nat (seq 0 (length doc)) ∧
     highlights (dom (world sess')) = [] ∧
     ∀ k items, doc !! k = Some items →
       pageTextBoxes sess' !! Pos.of_succ_nat k
       = Some (map (toTextBox (Pos.of_succ_nat k)) items)) ∧
  (∀ before failing rest message,
     rejection failing = Some message →
     let doc := map PageRenders before ++ failing :: rest in
     let sess' := loadAndRenderPDF (DocumentReady doc) sess in
     loading (state (world sess')) = false ∧
     error (state (world sess'))
       = Some (js "Failed to load PDF: " ++ message) ∧
     pdfDoc (state (world sess')) = Some (length doc) ∧
     pageContainers (dom (world sess'))
       = map Pos.of_succ_nat (seq 0 (length before))
         ++ (if containerAppended failing
             then [Pos.of_succ_nat (length before)] else []) ∧
     highlights (dom (world sess')) = [] ∧
     (∀ k items, before !! k = Some items →
        pageTextBoxes sess' !! Pos.of_succ_nat k
        = Some (map (toTextBox (Pos.of_succ_nat k)) items)) ∧
     (∀ q, (length before < Pos.to_nat q)%nat →
        pageTextBoxes sess' !! q = pageTextBoxes sess !! q)) ∧
  (∀ message,
     let sess' := loadAndRenderPDF (DocumentFailed message) sess in
     loading (state (world sess')) = false ∧
     error (state (world sess'))
       = Some (js "Failed to load PDF: " ++ message) ∧
     pageTextBoxes sess' = pageTextBoxes sess ∧
     dom (world sess') = dom (world sess)) ∧
  (let sess' := loadAndRenderPDF LibraryMissing sess in
   loading (state (world sess')) = false ∧
   error (state (world sess'))
     = Some (js "Failed to load PDF: PDF.js library not loaded") ∧
   pageTextBoxes sess' = pageTextBoxes sess ∧
   dom (world sess') = dom (world sess)).
Proof.
  split; [|split; [|split; [|done]]].
  - intros doc. cbv zeta. unfold loadAndRenderPDF, renderPDFPages.
    rewrite length_map.
    destruct (renderPagesFrom_spec doc 1 (documentLoaded (length doc) sess))
      as (Hnone & Hc & Hin & _ & Hst & Hh).
    cbv zeta in Hnone, Hc, Hin, Hst, Hh. rewrite Hnone.
    cbn [world pageTextBoxes handle state dom].
    rewrite Hst, Hc, Hh. repeat split; try done.
    + simpl. apply map_ext. intros k. apply pageAfter_1.
    + intros k items Hk. rewrite <- pageAfter_1. by apply Hin.
  - intros before failing rest message Hrej. cbv zeta.
    unfold loadAndRenderPDF, renderPDFPages.
    set (doc := map PageRenders before ++ failing :: rest).
    rewrite (renderPagesFrom_app before (failing :: rest)).
    destruct (renderPagesFrom_spec before 1 (documentLoaded (length doc) sess))
      as (_ & Hc & Hin & Hout & Hst & Hh).
    cbv zeta in Hc, Hin, Hout, Hst, Hh.
    set (sess1 := fst (renderPagesFrom 1 (map PageRenders before)
                         (documentLoaded (length doc) sess))) in *.
    assert (map (pageAfter 1) (seq 0 (length before))
            = map Pos.of_succ_nat (seq 0 (length before))) as Hseq
      by (apply map_ext; intros k; apply pageAfter_1).
    assert (∀ q, (length before < Pos.to_nat q)%nat →
                 pageTextBoxes sess1 !! q = pageTextBoxes sess !! q) as Hout'.
    { intros q Hq. rewrite Hout; [done|]. intros k Hk. unfold pageAfter. lia. }
    assert (∀ k items, before !! k = Some items →
              pageTextBoxes sess1 !! Pos.of_succ_nat k
              = Some (map (toTextBox (Pos.of_succ_nat k)) items)) as Hin'.
    { intros k items Hk. rewrite <- pageAfter_1. by apply Hin. }
    destruct failing as [items|m|m|m]; [done|..]; injection Hrej as ->;
      cbn [renderPagesFrom snd fst loadFailed world pageTextBoxes handle
           state dom containerAppended pageContainers highlights];
      rewrite ?Hst, ?Hc, ?Hh, ?Hseq, ?pageAfter_1, ?app_nil_r;
      repeat split; done.
  - intros message. done.
Qed.


(** ** Clicking a reference *)


(** X13.  While [loading] is set, a click on a reference only asks to
    wait and leaves the session as it is, whatever the session; and
    [loading] is set from the mount of the component on and all through
    the rendering of the pages. *)
Theorem click_while_loading cfg ref :
  (∀ sess,
     loading (state (world sess)) = true →
     handleReferenceClick cfg ref sess = (Some PleaseWait, sess)) ∧
  loading (state (world freshSession)) = true ∧
  (∀ start numPages pagesSoFar,
     loading (state (world (fst (renderPDFPages pagesSoFar
                                   (documentLoaded numPages start)))))
     = true).
Proof.
  split; [|split; [done|]].
  - intros sess Hl. unfold handleReferenceClick. by rewrite Hl.
  - intros start n doc. unfold renderPDFPages.
    by rewrite (proj1 (renderPagesFrom_state doc 1 _)).
Qed.


(** ** Composing the state operations *)

(** X15.  Clearing twice is clearing once, creating the same highlight
    twice is creating it once, and clearing after creating is clearing;
    [createHighlight] leaves the page containers and every state field
    other than the highlight as they are. *)
Theorem highlight_operations_idempotent p r w :
  clearHighlights (clearHighlights w) = clearHighlights w ∧
  createHighlight p r (snd (createHighlight p r w)) = createHighlight p r w ∧
  clearHighlights (snd (createHighlight p r w)) = clearHighlights w ∧
  pageContainers (dom (snd (createHighlight p r w))) = pageContainers (dom w) ∧
  pdfjsLoaded (state (snd (createHighlight p r w))) = pdfjsLoaded (state w) ∧
  pdfDoc (state (snd (createHighlight p r w))) = pdfDoc (state w) ∧
  loading (state (snd (createHighlight p r w))) = loading (state w) ∧
  error (state (snd (createHighlight p r w))) = error (state w).
Proof.
  destruct w as [[a b c d e] [cs hs]].
  unfold createHighlight, clearHighlights, updateState. simpl.
  destruct (bool_decide (p ∈ cs)) eqn:Hp; simpl; rewrite ?Hp; done.
Qed.

(** X16.  Two updates in a row amount to the single update with the
    second literal spread over the first; an update leaves the fields it
    does not mention as they are, and repeating it changes nothing. *)
Theorem updateState_compose first second s :
  updateState second (updateState first s)
    = updateState (mergeUpdates first second) s ∧
  updateState first (updateState first s) = updateState first s ∧
  (Updates.currentHighlight first = None →
   currentHighlight (updateState first s) = currentHighlight s) ∧
  (Updates.loading first = None →
   loading (updateState first s) = loading s) ∧
  (Updates.error first = None → error (updateState first s) = error s) ∧
  (Updates.pdfDoc first = None → pdfDoc (updateState first s) = pdfDoc s) ∧
  (Updates.pdfjsLoaded first = None →
   pdfjsLoaded (updateState first s) = pdfjsLoaded s).
Proof.
  destruct first as [[a1|] [b1|] [c1|] [d1|] [e1|]],
    second as [[a2|] [b2|] [c2|] [d2|] [e2|]], s; repeat split; done.
Qed.

(** ** No false positives *)

(** X17.  A result of [findPhrase] is never made up: its page is indexed,
    and some listed variation occurs, lowercased, both in the page text
    and in the lowercased texts of the page's boxes concatenated without
    separator; the rectangle is that of a non-empty run of boxes of that
    page. *)
Theorem findPhrase_sound cfg (pages : PageIndex) ref config found :
  cfg !! ref = Some config →
  findPhrase cfg pages ref = Some found →
  ∃ boxes v,
    pages !! MatchResult.page found = Some boxes ∧
    v ∈ PhraseSpec.variations config ∧
    includes (pageTextOf boxes) (toLowerCase v) = true ∧
    includes (runText boxes) (toLowerCase v) = true ∧
    findMatchingTextBoxes boxes (toLowerCase v) ≠ [] ∧
    findMatchingTextBoxes boxes (toLowerCase v) ⊆ boxes ∧
    MatchResult.rect found
      = calculateBoundingRect (findMatchingTextBoxes boxes (toLowerCase v)).
Proof.
  intros Hcfg Hfound.
  destruct (proj1 (findPhrase_Some_iff _ _ _ _ _ Hcfg) Hfound)
    as (pb & p & pa & boxes & vb & v & va & _ & _ & Hp & Hvs & _ & Hv & ->).
  apply variationMatches_true in Hv as [Hidx Hne].
  exists boxes, v. split; [done|]. split.
  { rewrite Hvs. apply elem_of_app. right. apply list_elem_of_here. }
  split.
  { unfold includes. by destruct (Z.eqb_spec (indexOf (pageTextOf boxes)
                                                (toLowerCase v)) (-1)). }
  destruct (findMatchingTextBoxes_last _ _ Hne)
    as (i & w & b & Hw & Hb & Hinc & Hrun).
  split.
  { destruct (windowAt_suffix _ _ _ _ Hw) as [pre Hpre].
    assert (runText boxes
            = pre ++ currentText (push b w) ++ runText (drop (S i) boxes))
      as ->; [|by apply includes_app].
    rewrite <- (take_drop (S i) boxes) at 1.
    rewrite runText_app, (runText_take_S _ _ _ Hb), Hpre. simpl.
    by rewrite <- !app_assoc. }
  split; [done|]. split; [apply findMatchingTextBoxes_subseteq | done].
Qed.
End Facts.

(** * The executable platform and the sample pages *)

(** [refPlatform] satisfies the laws. *)
Lemma refNumberLaws : NumberLaws refPlatform.
Proof.
  split.
  - by intros [].
  - by intros [].
  - intros [] []; simpl; try done. f_equal. lia.
  - intros [] [] []; simpl; try done. f_equal. lia.
  - intros [] []; simpl; try done. f_equal. lia.
  - intros [] [] []; simpl; try done. f_equal. lia.
  - intros [| |x|] [| |y|]; simpl; auto.
    destruct (Z.min_spec x y) as [[_ ->]|[_ ->]]; auto.
  - intros [| |x|] [| |y|]; simpl; auto.
    destruct (Z.max_spec x y) as [[_ ->]|[_ ->]]; auto.
  - intros [] []; simpl; try done; lia.
  - intros [] []; simpl; try done; lia.
  - intros [] [] []; simpl; try done; lia.
  - intros []; simpl; try done; lia.
  - intros [] []; simpl; try done; lia.
  - intros [] []; simpl; try done; lia.
  - intros [] []; simpl; try done; lia.
Qed.

Lemma basicLower_app s t : basicLower (s ++ t) = basicLower s ++ basicLower t.
Proof. unfold basicLower. by rewrite map_app, concat_app. Qed.

Lemma refStringLaws : StringLaws refPlatform.
Proof.
  split.
  - done.
  - intros l. change (@toLowerCase refPlatform) with basicLower.
    induction l as [|x [|y l] IH]; [done..|].
    change (join (js " ") (x :: y :: l))
      with (x ++ js " " ++ join (js " ") (y :: l)).
    rewrite !basicLower_app, IH. done.
Qed.

#[local] Existing Instance refPlatform.
#[local] Existing Instance refNumberLaws.
#[local] Existing Instance refStringLaws.

(** ** Fragment-run resolution on the sample pages *)

(** C2, evaluated on [splitPhrasePage] for the variation "2.3 bn".  At
    turn 1 the buffer is longer than three times the variation; the window
    drops its only box, "Revenue up, EBITDA of USD 2." (28 characters), but
    the buffer is cut by the length of [boxes[Math.max(0, i - 10)]], which
    is box 0 (22 characters).  The buffer is left holding "usd 2." while
    the window is empty, so the buffer is not the concatenation of the
    window's texts. *)
Theorem slide_trims_by_other_box :
  ∃ w,
    windowAt splitPhrasePage (js "2.3 bn") 2 = Some w ∧
    currentBoxes w = [] ∧
    currentText w = js "usd 2." ∧
    currentText w ≠ runText (currentBoxes w) ∧
    trimIndex 1 = O ∧
    length (TextBox.str (splitPhrasePage !!! trimIndex 1)) = 22%nat ∧
    length (TextBox.str (splitPhrasePage !!! 1%nat)) = 28%nat.
Proof.
  exists (mkWindow (js "usd 2.") []).
  repeat split; try (vm_compute; reflexivity). discriminate.
Qed.

(** C1, evaluated on [splitPhraseIndex] with the shipped configuration.
    Reference 1 is hinted to page 3; "2.3 bn" is the first variation in the
    page text.  The scan returns at turn 2, with the buffer
    "usd 2.3 bn (usd 2.1 bn)", but the run it returns is the single box
    "3 bn (USD 2.1 bn)", whose text does not contain "2.3 bn". *)
Theorem findPhrase_run_without_variation :
  let run := findMatchingTextBoxes splitPhrasePage (js "2.3 bn") in
  run = [textBox "3 bn (USD 2.1 bn)" 230 60 110 12 3] ∧
  findPhrase SEARCH_PHRASES splitPhraseIndex 1
    = Some (MatchResult.mk 3 (calculateBoundingRect run)) ∧
  includes (runText run) (js "2.3 bn") = false.
Proof. repeat split; vm_compute; reflexivity. Qed.

(** C7 as stated fails on [emptyLeadPage] for the variation "2.4%": the
    loop head of turn 7 is reached with a buffer of 36 characters, above
    3 * 4 + 9. *)
Lemma buffer_bound_counterexample :
  ∃ w, windowAt emptyLeadPage (js "2.4%") 7 = Some w ∧
       (3 * length (js "2.4%") + maxTextLength emptyLeadPage
        < length (currentText w))%nat.
Proof. eexists. split; [vm_compute; reflexivity | vm_compute; lia]. Qed.

Lemma uniformPage_noLongerThanEarlier : noLongerThanEarlier uniformPage.
Proof.
  intros j i bj bi _ Hj Hi.
  assert (∀ b, b ∈ uniformPage →
               length (TextBox.str b) = 9%nat ∧
               length (toLowerCase (TextBox.str b)) = 9%nat) as Hlen.
  { intros b Hb. unfold uniformPage, emptyLeadPage in Hb. simpl in Hb.
    rewrite !elem_of_cons in Hb.
    destruct Hb as [->|[->|[->|[->|Hb]]]];
      [split; vm_compute; reflexivity..|].
    by apply not_elem_of_nil in Hb. }
  destruct (Hlen bj) as [-> _]; [apply list_elem_of_lookup; eauto|].
  destruct (Hlen bi) as [_ ->]; [apply list_elem_of_lookup; eauto|].
  lia.
Qed.

Lemma scan_visits_and_buffer_bound_witness :
  windowAt splitPhrasePage (js "2.3 bn") 2
    = Some (mkWindow (js "usd 2.") []) ∧
  (2 ≤ length splitPhrasePage)%nat ∧
  (length (js "usd 2.") ≤ loweredLength (take 2 splitPhrasePage))%nat ∧
  noLongerThanEarlier uniformPage ∧
  windowAt uniformPage (js "2.4%") 3
    = Some (mkWindow (js "eased by ") [textBox "eased by " 130 20 60 10 5]) ∧
  (length (js "eased by ") ≤ 3 * length (js "2.4%"))%nat.
Proof.
  split; [vm_compute; reflexivity|].
  destruct (scan_visits_and_buffer_bound splitPhrasePage (js "2.3 bn") 2
              (mkWindow (js "usd 2.") [])) as (H1 & _ & H3 & _).
  { vm_compute; reflexivity. }
  split; [exact H1|]. split; [exact H3|].
  split; [exact uniformPage_noLongerThanEarlier|].
  split; [vm_compute; reflexivity|].
  destruct (scan_visits_and_buffer_bound uniformPage (js "2.4%") 3
              (mkWindow (js "eased by ")
                 [textBox "eased by " 130 20 60 10 5]))
    as (_ & _ & _ & _ & H5).
  { vm_compute; reflexivity. }
  exact (proj1 (H5 uniformPage_noLongerThanEarlier)).
Defined.

(** ** The bounding rectangle on the sample pages *)

Lemma splitPhrasePage_numeric : Forall numericBox splitPhrasePage.
Proof.
  repeat (apply Forall_cons; split; [repeat split; simpl; lia|]).
  constructor.
Qed.

Lemma calculateBoundingRect_min_max_witness :
  ∃ l t r b,
    calculateBoundingRect splitPhrasePage
      = Rect.mk l t (num_sub r l) (num_sub b t) ∧
    isMinimum l (map TextBox.left splitPhrasePage) ∧
    isMinimum t (map TextBox.top splitPhrasePage) ∧
    isMaximum r (map rightOf splitPhrasePage) ∧
    isMaximum b (map bottomOf splitPhrasePage).
Proof.
  apply calculateBoundingRect_min_max;
    [discriminate | exact splitPhrasePage_numeric].
Defined.

(** ** Candidate order and the first match on the sample pages *)

(** C5 as stated fails on [gainIndex] with the shipped configuration: the
    first listed variation of reference 3 occurs in the page search string
    of page 15, the only candidate page, yet the result is the one of the
    third variation, because the scan for the first comes back empty. *)
Lemma first_occurring_variation_counterexample :
  let v := js "gain on sale of non-current assets" in
  SEARCH_PHRASES !! 3%N = Some gainSpec ∧
  pagesToSearch gainSpec gainIndex = [15%positive] ∧
  gainIndex !! 15%positive = Some gainPage ∧
  PhraseSpec.variations gainSpec !! 0%nat = Some v ∧
  PhraseSpec.variations gainSpec !! 2%nat = Some (js "non-current assets") ∧
  occursIn (pageTextOf gainPage) v = true ∧
  findPhrase SEARCH_PHRASES gainIndex 3
    = Some (resultFor 15 gainPage (js "non-current assets")) ∧
  resultFor 15 gainPage (js "non-current assets") ≠ resultFor 15 gainPage v.
Proof.
  repeat split; try (vm_compute; reflexivity). vm_compute. discriminate.
Qed.

Lemma findPhrase_first_match_witness :
  Object_keys threePages = [2; 5; 9]%positive ∧
  findPhrase unhintedPhrases threePages 2
    = Some (MatchResult.mk 5 (rect 90 40 100 12)).
Proof.
  split; [vm_compute; reflexivity|].
  eapply (proj2 (proj2 (proj2 (proj2
            (findPhrase_first_match unhintedPhrases threePages 2 _
               ltac:(vm_compute; reflexivity)))) _)).
  exists [2%positive], 5%positive, [9%positive].
  eexists. exists [js "ocean revenue increased by 2.4%";
                   js "revenue increased by 2.4%";
                   js "ocean revenue increased";
                   js "increased by 2.4%"],
                  (js "2.4%"), [].
  split; [vm_compute; reflexivity|].
  split.
  { intros q bs u ->%list_elem_of_singleton [= <-] Hu.
    simpl in Hu. rewrite !elem_of_cons in Hu.
    destruct Hu as [->|[->|[->|[->|[->|Hu]]]]]; try (vm_compute; reflexivity).
    by apply not_elem_of_nil in Hu. }
  split; [vm_compute; reflexivity|].
  split; [reflexivity|].
  split.
  { intros u Hu. rewrite !elem_of_cons in Hu.
    destruct Hu as [->|[->|[->|[->|Hu]]]]; try (vm_compute; reflexivity).
    by apply not_elem_of_nil in Hu. }
  split; vm_compute; reflexivity.
Defined.

(** C3 as stated fails on [gainIndex] with the shipped configuration: the
    first variation of reference 3 occurs in the page text of page 15, the
    scan for it comes back empty, and [findPhrase] still returns a result
    on page 15, from the third variation, although page 15 is the only
    candidate page. *)
Lemma next_page_counterexample :
  let v := js "gain on sale of non-current assets" in
  SEARCH_PHRASES !! 3%N = Some gainSpec ∧
  head (PhraseSpec.variations gainSpec) = Some v ∧
  pagesToSearch gainSpec gainIndex = [15%positive] ∧
  gainIndex !! 15%positive = Some gainPage ∧
  indexOf (pageTextOf gainPage) (toLowerCase v) ≠ -1 ∧
  findMatchingTextBoxes gainPage (toLowerCase v) = [] ∧
  searchPages gainIndex (PhraseSpec.variations gainSpec) [] = None ∧
  findPhrase SEARCH_PHRASES gainIndex 3
    = Some (resultFor 15 gainPage (js "non-current assets")).
Proof.
  repeat split; try (vm_compute; reflexivity). vm_compute. discriminate.
Qed.

Lemma empty_run_tries_next_variation_witness :
  tryVariations gainPage (pageTextOf gainPage) 15
    [js "gain on sale of non-current assets"; js "gain on sale";
     js "non-current assets"; js "sale of assets"; js "25 208"]
  = tryVariations gainPage (pageTextOf gainPage) 15
      [js "gain on sale"; js "non-current assets"; js "sale of assets";
       js "25 208"].
Proof.
  refine (proj1 (empty_run_tries_next_variation gainPage 15
                   (js "gain on sale of non-current assets") _ _ _)).
  - vm_compute. discriminate.
  - vm_compute. reflexivity.
Defined.

Lemma findPhrase_absent_witness :
  findPhrase SEARCH_PHRASES gainIndex 99 = None ∧
  findPhrase SEARCH_PHRASES gainIndex 1 = None ∧
  findPhrase unhintedPhrases (<[4%positive := []]> gainIndex) 2 = None.
Proof.
  split; [|split].
  - apply (proj1 (findPhrase_absent SEARCH_PHRASES gainIndex 99)).
    vm_compute. reflexivity.
  - eapply (proj1 (proj2 (proj2
              (findPhrase_absent SEARCH_PHRASES gainIndex 1)))).
    + vm_compute. reflexivity.
    + reflexivity.
    + left. vm_compute. reflexivity.
  - eapply (proj2 (proj2 (proj2
              (findPhrase_absent unhintedPhrases
                 (<[4%positive := []]> gainIndex) 2)))).
    + vm_compute. reflexivity.
    + intros p Hp bs v Hbs Hv. left.
      change (pagesToSearch _ _) with [4%positive; 15%positive] in Hp.
      simpl in Hv. rewrite !elem_of_cons in Hp. rewrite !elem_of_cons in Hv.
      destruct Hp as [->|[->|Hp]]; [| |by apply not_elem_of_nil in Hp];
        vm_compute in Hbs; injection Hbs as <-;
        (destruct Hv as [->|[->|[->|[->|[->|Hv]]]]];
           [vm_compute; reflexivity..|by apply not_elem_of_nil in Hv]).
Defined.

Lemma findPhrase_rect_nonnegative_witness :
  num_le num_zero
    (Rect.width (calculateBoundingRect
                   (findMatchingTextBoxes gainPage (js "non-current assets")))) ∧
  num_le num_zero
    (Rect.height (calculateBoundingRect
                    (findMatchingTextBoxes gainPage (js "non-current assets")))).
Proof.
  apply (proj1 findPhrase_rect_nonnegative SEARCH_PHRASES gainIndex 3%N
           (resultFor 15 gainPage (js "non-current assets"))).
  - intros p boxes b Hp Hb. unfold gainIndex in Hp.
    apply lookup_singleton_Some in Hp as [_ <-].
    unfold gainPage in Hb. rewrite !elem_of_cons in Hb.
    destruct Hb as [->|[->|Hb]]; [repeat split; simpl; lia..|].
    by apply not_elem_of_nil in Hb.
  - vm_compute. reflexivity.
Defined.

(** ** Letter case on the sample pages *)

(** C6, evaluated on [dottedIndex] with the shipped configuration.  The
    pages [dottedPage] and [dottedPageLower] differ only in letter case,
    and have the same page search string, in which "2.3 bn" is the first
    variation of reference 1 to occur.  The heading has 15 code units and
    its lowercase form 22.  On [dottedPage] the buffer, which holds
    lowercased text, is cut by the 15 units of the heading as it stands
    in the box: 7 units stay behind after turn 0, the cut of turn 1 then
    leaves "f about usd 2.3 ", and turn 2 answers with the box "bn".  On
    [dottedPageLower] the cuts are by 22 units, turn 1 leaves "3 ", and
    no turn's buffer contains "2.3 bn": the search finds nothing. *)
Theorem findPhrase_depends_on_case :
  dottedPageLower = map lowerBox dottedPage ∧
  pageTextOf dottedPage = pageTextOf dottedPageLower ∧
  occursIn (pageTextOf dottedPage) (js "2.3 bn") = true ∧
  length dottedHeading = 15%nat ∧
  length (toLowerCase dottedHeading) = 22%nat ∧
  option_map currentText (windowAt dottedPage (js "2.3 bn") 2)
    = Some (js "f about usd 2.3 ") ∧
  option_map currentText (windowAt dottedPageLower (js "2.3 bn") 2)
    = Some (js "3 ") ∧
  findPhrase SEARCH_PHRASES dottedIndex 1
    = Some (MatchResult.mk 3 (rect 212 60 16 12)) ∧
  findPhrase SEARCH_PHRASES dottedIndexLower 1 = None.
Proof. repeat split; vm_compute; reflexivity. Qed.

(** ** The highlight slot on a loaded document *)

Lemma highlight_single_slot_witness :
  let loaded := loadAndRenderPDF (DocumentReady sampleDocument) freshSession in
  let first := createHighlight 1 sampleRect (world loaded) in
  let second := createHighlight 3 (rect 130 60 40 12) (snd first) in
  reachable SEARCH_PHRASES loaded ∧
  fst first = true ∧
  currentHighlight (state (snd first)) = Some (Highlight.mk 1 sampleRect) ∧
  fst second = true ∧
  currentHighlight (state (snd second))
    = Some (Highlight.mk 3 (rect 130 60 40 12)) ∧
  highlights (dom (snd second)) = [(3%positive, rect 130 60 40 12)].
Proof.
  intros loaded.
  assert (reachable SEARCH_PHRASES loaded) as Hr.
  { apply reachable_loaded. by repeat split. }
  split; [exact Hr|].
  apply (proj1 (proj2 (proj2 (proj2 (highlight_single_slot SEARCH_PHRASES))))
           loaded 1%positive sampleRect 3%positive (rect 130 60 40 12) Hr).
  - eexists. vm_compute. reflexivity.
  - eexists. vm_compute. reflexivity.
Defined.

(** ** The extras on the sample pages *)

Lemma findMatchingTextBoxes_sound_witness :
  ∃ i b,
    gainPage !! i = Some b ∧
    last (findMatchingTextBoxes gainPage (js "non-current assets")) = Some b ∧
    includes (runText (take (S i) gainPage)) (js "non-current assets") = true ∧
    includes (runText gainPage) (js "non-current assets") = true.
Proof.
  apply findMatchingTextBoxes_sound. vm_compute. discriminate.
Defined.

Lemma findMatchingTextBoxes_single_fragment_witness :
  ∃ i bi,
    (i ≤ 3)%nat ∧ splitPhrasePage !! i = Some bi ∧
    last (findMatchingTextBoxes splitPhrasePage (js "2.3 bn")) = Some bi.
Proof.
  apply (findMatchingTextBoxes_single_fragment splitPhrasePage (js "2.3 bn")
           3 (textBox "2.3 bn" 400 200 40 12 3));
    vm_compute; reflexivity.
Defined.

Lemma findPhrase_finds_single_fragment_witness :
  is_Some (findPhrase SEARCH_PHRASES splitPhraseIndex 1).
Proof.
  apply (findPhrase_finds_single_fragment SEARCH_PHRASES splitPhraseIndex 1%N
           ebitdaSpec 3%positive splitPhrasePage
           (textBox "2.3 bn" 400 200 40 12 3) (js "2.3 bn")).
  - vm_compute. reflexivity.
  - vm_compute. apply list_elem_of_here.
  - vm_compute. reflexivity.
  - unfold splitPhrasePage. do 3 apply list_elem_of_further.
    apply list_elem_of_here.
  - unfold ebitdaSpec. simpl. do 5 apply list_elem_of_further.
    apply list_elem_of_here.
  - vm_compute. reflexivity.
Defined.

Lemma findMatchingTextBoxes_short_page_witness :
  (findMatchingTextBoxes gainPage (js "non-current assets") = [] ∧
   ∀ k, (1 ≤ k ≤ length gainPage)%nat →
        includes (runText (take k gainPage)) (js "non-current assets") = false) ∨
  (∃ i, (i < length gainPage)%nat ∧
        findMatchingTextBoxes gainPage (js "non-current assets")
          = take (S i) gainPage ∧
        includes (runText (take (S i) gainPage)) (js "non-current assets")
          = true ∧
        ∀ k, (1 ≤ k ≤ i)%nat →
             includes (runText (take k gainPage)) (js "non-current assets")
               = false).
Proof.
  apply findMatchingTextBoxes_short_page. vm_compute. lia.
Defined.

Lemma empty_variation_matches_first_box_witness :
  tryVariations gainPage (pageTextOf gainPage) 15 [[]; js "gain on sale"]
  = Some (MatchResult.mk 15 (rect 30 100 45 12)).
Proof.
  exact (proj2 (empty_variation_matches_first_box
                  (textBox "Gain on" 30 100 45 12 15)
                  [textBox "sale of non-current assets" 80 100 160 12 15]
                  (pageTextOf gainPage) 15 [js "gain on sale"])).
Defined.

Lemma coarse_check_exact_substring_witness :
  tryVariations gainPage (pageTextOf gainPage) 15
      [js "25 208"; js "gain ON sale"]
    = tryVariations gainPage (pageTextOf gainPage) 15 [js "gain ON sale"].
Proof.
  apply (proj2 (proj2 coarse_check_exact_substring)).
  vm_compute. reflexivity.
Defined.

Lemma findPhrase_same_but_case_witness :
  findPhrase SEARCH_PHRASES capitalsIndex 1
  = findPhrase SEARCH_PHRASES smallIndex 1.
Proof.
  apply findPhrase_same_but_case.
  - change (SEARCH_PHRASES !! 1%N) with (Some ebitdaSpec).
    constructor. by split.
  - intros p. unfold capitalsIndex, smallIndex.
    destruct (decide (p = 3%positive)) as [->|Hne].
    + rewrite !lookup_singleton_eq. constructor.
      constructor; [|constructor]. by repeat split.
    + rewrite !lookup_singleton_ne by done. constructor.
Defined.

Lemma calculateBoundingRect_permutation_witness :
  calculateBoundingRect gainPage = calculateBoundingRect (reverse gainPage).
Proof.
  apply calculateBoundingRect_permutation. symmetry. apply reverse_Permutation.
Defined.

Lemma findPhrase_hint_only_witness :
  findPhrase SEARCH_PHRASES gainIndex 3
    = findPhrase SEARCH_PHRASES (<[3%positive := splitPhrasePage]> gainIndex) 3.
Proof.
  apply (proj1 (findPhrase_hint_only SEARCH_PHRASES gainIndex
                  (<[3%positive := splitPhrasePage]> gainIndex) 3%N gainSpec
                  15%positive ltac:(vm_compute; reflexivity) eq_refl)).
  vm_compute. reflexivity.
Defined.

Lemma findPhrase_least_page_witness :
  is_Some (threePages !! 5%positive) ∧
  ∀ q bs u,
    (q < 5)%positive →
    threePages !! q = Some bs →
    u ∈ PhraseSpec.variations oceanSpec →
    variationMatches bs (pageTextOf bs) u = false.
Proof.
  apply (findPhrase_least_page unhintedPhrases threePages 2%N
           (PhraseSpec.mk (PhraseSpec.canonical oceanSpec)
              (PhraseSpec.variations oceanSpec) None)
           (MatchResult.mk 5 (rect 90 40 100 12)));
    vm_compute; reflexivity.
Defined.

Lemma extractTextContent_replaces_witness :
  extractTextContent 2 [textItem None 5 20 8 0]
    (extractTextContent 1 [textItem (Some "Report"%string) 40 50 20 60] ∅)
    !! 1%positive
  = Some [textBox "Report" 40 30 60 20 1].
Proof.
  rewrite (proj1 (proj2 (extractTextContent_replaces 2
                           [textItem None 5 20 8 0] _)) 1%positive);
    [|discriminate].
  apply (proj1 (extractTextContent_replaces 1
                  [textItem (Some "Report"%string) 40 50 20 60] ∅)).
Defined.

Lemma renderPDFPages_index_witness :
  pageTextBoxes (fst (renderPDFPages sampleDocument freshSession)) !! 3%positive
  = Some [textBox "EBITDA of USD" 40 60 90 12 3;
          textBox " 2.3 bn" 130 60 40 12 3].
Proof.
  exact (proj1 (proj2 (proj2 (renderPDFPages_index sampleItems freshSession)))
           2%nat
           [textItem (Some "EBITDA of USD"%string) 40 72 12 90;
            textItem (Some " 2.3 bn"%string) 130 72 12 40]
           eq_refl).
Defined.

Lemma loadAndRenderPDF_outcomes_witness :
  let sess' := loadAndRenderPDF (DocumentReady brokenDocument) freshSession in
  rejection (@RenderFails refPlatform (js "Invalid page"))
    = Some (js "Invalid page") ∧
  loading (state (world sess')) = false ∧
  error (state (world sess'))
    = Some (js "Failed to load PDF: Invalid page") ∧
  pageContainers (dom (world sess')) = [1; 2; 3]%positive ∧
  pageTextBoxes sess' !! 1%positive
    = Some [textBox "Interim Report" 40 30 120 20 1; textBox "" 0 0 0 0 1] ∧
  pageTextBoxes sess' !! 3%positive = None.
Proof.
  intros sess'. split; [reflexivity|].
  destruct (proj1 (proj2 (loadAndRenderPDF_outcomes freshSession))
              (take 2 sampleItems)
              (@RenderFails refPlatform (js "Invalid page")) []
              (js "Invalid page") eq_refl)
    as (Hl & He & _ & Hc & _ & Hin & Hout).
  split; [exact Hl|]. split; [exact He|]. split; [exact Hc|].
  split.
  - exact (Hin O [textItem (Some "Interim Report"%string) 40 50 20 120;
                  textItem None 0 0 0 0] eq_refl).
  - exact (Hout 3%positive ltac:(simpl; lia)).
Defined.

Lemma click_while_loading_witness :
  let rendering :=
    fst (renderPDFPages (take 2 sampleDocument)
           (documentLoaded 3 freshSession)) in
  loading (state (world rendering)) = true ∧
  handleReferenceClick SEARCH_PHRASES 1 rendering
    = (Some PleaseWait, rendering).
Proof.
  intros rendering.
  assert (loading (state (world rendering)) = true) as Hl
    by (vm_compute; reflexivity).
  split; [exact Hl|].
  exact (proj1 (click_while_loading SEARCH_PHRASES 1%N) rendering Hl).
Defined.

Lemma updateState_compose_witness :
  let s := state initialWorld in
  updateState (Updates.mk None None (Some false) None None)
    (updateState (Updates.mk None None (Some true) (Some None) None) s)
  = updateState (Updates.mk None None (Some false) (Some None) None) s ∧
  currentHighlight
    (updateState (Updates.mk None None (Some true) (Some None) None) s)
  = currentHighlight s.
Proof.
  intros s. split.
  - apply (proj1 (updateState_compose
                    (Updates.mk None None (Some true) (Some None) None)
                    (Updates.mk None None (Some false) None None) s)).
  - apply (proj1 (proj2 (proj2 (updateState_compose
                    (Updates.mk None None (Some true) (Some None) None)
                    (Updates.mk None None None None None) s)))).
    reflexivity.
Defined.

Lemma findPhrase_sound_witness :
  ∃ boxes v,
    gainIndex !! 15%positive = Some boxes ∧
    v ∈ PhraseSpec.variations gainSpec ∧
    includes (pageTextOf boxes) (toLowerCase v) = true ∧
    includes (runText boxes) (toLowerCase v) = true ∧
    findMatchingTextBoxes boxes (toLowerCase v) ≠ [] ∧
    findMatchingTextBoxes boxes (toLowerCase v) ⊆ boxes ∧
    MatchResult.rect (resultFor 15 gainPage (js "non-current assets"))
      = calculateBoundingRect (findMatchingTextBoxes boxes (toLowerCase v)).
Proof.
  apply (findPhrase_sound SEARCH_PHRASES gainIndex 3%N gainSpec
           (resultFor 15 gainPage (js "non-current assets")));
    vm_compute; reflexivity.
Defined.
